(** * goidp: the password hashing module [internal/authn]

    A shallow embedding of [GenerateHash], [VerifyPassword] and the
    Argon2id / bcrypt encoders, decoders and verifiers, together with the
    parts of Go's standard library they call ([strings.Split],
    [encoding/base64], [fmt.Sprintf] / [fmt.Sscanf] for [%d],
    [strconv.Atoi], [crypto/subtle.ConstantTimeCompare]).

    Go strings and byte slices are both sequences of bytes and are modelled
    as [list byte]; fixed-width integers are [Z] with the conversion written
    out; a call that ends the process ([log.Fatal]) or panics is a result of
    its own, see [outcome]. What the module writes to its logger
    ([slog.Error]) is not part of the model. *)

From Stdlib Require Import ZArith Lia List Bool Strings.Byte Strings.String.
From stdpp Require Import base option list countable gmap.

Local Open Scope Z_scope.

(** ** Bytes and strings *)

Abbreviation bytes := (list byte).

(** A Go string literal. *)
Definition go (s : string) : bytes := list_byte_of_string s.
Arguments go s%_string.

#[global] Instance byte_eq_dec : EqDecision byte := Byte.byte_eq_dec.

Definition byte_of_N_total (n : N) : byte :=
  match Byte.of_N n with Some b => b | None => x00 end.

#[global] Program Instance byte_countable : Countable byte :=
  inj_countable' Byte.to_N byte_of_N_total _.
Next Obligation. intros b. unfold byte_of_N_total. now rewrite Byte.of_to_N. Qed.

(** [uint(b)]: the value of a byte. *)
Definition code (b : byte) : Z := Z.of_N (Byte.to_N b).

(** [byte(v)]: conversion of an unsigned integer to a byte keeps the low
    eight bits. *)
Definition to_byte (v : Z) : byte := byte_of_N_total (Z.to_N (v mod 256)).

(** [uint32(v)], [uint8(v)]: conversion of an [int] wraps around. *)
Definition uint32 (v : Z) : Z := v mod 2 ^ 32.
Definition uint8 (v : Z) : Z := v mod 2 ^ 8.

(** [len(s)] as an [int]. *)
Definition len {A} (l : list A) : Z := Z.of_nat (length l).

(** ** Errors and outcomes *)

(** Go's [error] values that occur in the module. [None : option error] is
    [nil]. *)
Inductive error : Type :=
| errors_New (msg : bytes)            (* errors.New(msg) *)
| CorruptInputError (offset : Z)      (* encoding/base64 *)
| scanError (msg : bytes)             (* fmt: an error raised while scanning *)
| io_EOF                              (* io.EOF *)
| ErrUnexpectedEOF                    (* io.ErrUnexpectedEOF *)
| NumError (func input : bytes) (range : bool) (* strconv: ErrRange or ErrSyntax *)
| rand_error                          (* crypto/rand: the source failed *)
| InvalidCostError (cost : Z)         (* bcrypt.InvalidCostError(cost) *)
| bcrypt_error (msg : bytes).         (* another error of x/crypto/bcrypt *)

(** What is handed to [log.Fatal] / [log.Fatalf] before [os.Exit(1)]. *)
Inductive fatal : Type :=
| Fatal_err (e : error)                         (* log.Fatal(err) *)
| Fatal_text (e : error)                        (* log.Fatal(err.Error()) *)
| Fatalf_str (format : bytes) (arg : bytes)     (* log.Fatalf(format, s) *)
| Fatalf_err (format : bytes) (arg : error).    (* log.Fatalf(format, err) *)

(** The result of running a Go function: it returns, it ends the process
    through [log.Fatal], or it panics. *)
Inductive outcome (A : Type) : Type :=
| Ret (a : A)
| Fatal (f : fatal)
| Panic.
Arguments Ret {A} a.
Arguments Fatal {A} f.
Arguments Panic {A}.

#[global] Instance outcome_ret : MRet outcome := @Ret.
#[global] Instance outcome_bind : MBind outcome := fun A B k m =>
  match m with
  | Ret a => k a
  | Fatal f => Fatal f
  | Panic => Panic
  end.

(** ** encoding/base64: [RawStdEncoding] and its strict decoder *)

Module base64.

Definition encodeStd : bytes :=
  go "ABCDEFGHIJKLMNOPQRSTUVWXYZabcdefghijklmnopqrstuvwxyz0123456789+/".

(** [enc.encode[i]] *)
Definition encode_at (i : Z) : byte := nth (Z.to_nat i) encodeStd x00.

Fixpoint index_of (b : byte) (l : bytes) (i : Z) : Z :=
  match l with
  | [] => 255
  | c :: l' => if decide (c = b) then i else index_of b l' (i + 1)
  end.

(** [enc.decodeMap[b]]: the position of [b] in the alphabet, [0xff] for a
    byte outside of it. *)
Definition decodeMap (b : byte) : Z := index_of b encodeStd 0.

(** [Encode]: three source bytes give four characters; a remainder of one
    or two bytes gives two or three characters, without padding. *)
Fixpoint EncodeToString (src : bytes) : bytes :=
  match src with
  | [] => []
  | [s0] =>
      let val := Z.shiftl (code s0) 16 in
      [encode_at (Z.land (Z.shiftr val 18) 63);
       encode_at (Z.land (Z.shiftr val 12) 63)]
  | [s0; s1] =>
      let val := Z.lor (Z.shiftl (code s0) 16) (Z.shiftl (code s1) 8) in
      [encode_at (Z.land (Z.shiftr val 18) 63);
       encode_at (Z.land (Z.shiftr val 12) 63);
       encode_at (Z.land (Z.shiftr val 6) 63)]
  | s0 :: s1 :: s2 :: rest =>
      let val := Z.lor (Z.lor (Z.shiftl (code s0) 16) (Z.shiftl (code s1) 8))
                       (code s2) in
      encode_at (Z.land (Z.shiftr val 18) 63)
      :: encode_at (Z.land (Z.shiftr val 12) 63)
      :: encode_at (Z.land (Z.shiftr val 6) 63)
      :: encode_at (Z.land val 63)
      :: EncodeToString rest
  end.

(** The value assembled from the sextets of a quantum. *)
Definition quantum_val (d0 d1 d2 d3 : Z) : Z :=
  Z.lor (Z.lor (Z.lor (Z.shiftl d0 18) (Z.shiftl d1 12)) (Z.shiftl d2 6)) d3.

(** The end of [decodeQuantum]: [dlen] sextets were read, the input
    position is [si]. The strict decoder refuses trailing bits that are
    not zero; a refused quantum contributes no byte. *)
Definition flush (q : list Z) (si : Z) : bytes * option error :=
  match q with
  | [] => ([], None)
  | [_] => ([], Some (CorruptInputError (si - 1)))
  | [d0; d1] =>
      let val := quantum_val d0 d1 0 0 in
      if decide (to_byte (Z.shiftr val 8) = x00 /\ to_byte val = x00)
      then ([to_byte (Z.shiftr val 16)], None)
      else ([], Some (CorruptInputError (si - 2)))
  | [d0; d1; d2] =>
      let val := quantum_val d0 d1 d2 0 in
      if decide (to_byte val = x00)
      then ([to_byte (Z.shiftr val 16); to_byte (Z.shiftr val 8)], None)
      else ([], Some (CorruptInputError (si - 1)))
  | d0 :: d1 :: d2 :: d3 :: _ =>
      let val := quantum_val d0 d1 d2 d3 in
      ([to_byte (Z.shiftr val 16); to_byte (Z.shiftr val 8); to_byte val], None)
  end.

(** [Decode] with [padChar = NoPadding] and [strict = true]: the input is
    consumed quantum by quantum; [q] holds the sextets of the quantum
    being read and [si] is the input position. Line feeds and carriage
    returns are skipped, any other byte outside the alphabet is an error
    at its position. The bytes of the quanta decoded before an error are
    returned with it, as [DecodeString] returns [dbuf[:n]]. *)
Fixpoint Decode (src : bytes) (si : Z) (q : list Z) : bytes * option error :=
  match src with
  | [] => flush q si
  | c :: rest =>
      let out := decodeMap c in
      if decide (out = 255) then
        if decide (c = x0a \/ c = x0d) then Decode rest (si + 1) q
        else ([], Some (CorruptInputError si))
      else
        let q' := q ++ [out] in
        if decide (length q' = 4%nat) then
          let '(d, _) := flush q' (si + 1) in
          let '(ds, err) := Decode rest (si + 1) [] in
          (d ++ ds, err)
        else Decode rest (si + 1) q'
  end.

(** [RawStdEncoding.Strict().DecodeString(s)] *)
Definition DecodeString (s : bytes) : bytes * option error := Decode s 0 [].

End base64.

(** ** strings.Split *)

(** [strings.Split(s, sep)] for a separator of one byte, which is how the
    module calls it: the fields between the separators, in order; a string
    without separator is its own single field. *)
Fixpoint Split (s : bytes) (sep : byte) : list bytes :=
  match s with
  | [] => [[]]
  | c :: s' =>
      if decide (c = sep) then [] :: Split s' sep
      else match Split s' sep with
           | f :: fs => (c :: f) :: fs
           | [] => [[c]]
           end
  end.

(** ** strconv *)

Module strconv.

Definition is_digit (c : byte) : bool := (48 <=? code c) && (code c <=? 57).

(** The loop of [ParseUint(s, 10, 64)] from the accumulator [n]: a byte
    that is no decimal digit is a syntax error; an overflow of 64 bits is
    a range error with the largest value. *)
Fixpoint ParseUint_loop (s : bytes) (n : Z) : Z * option bool :=
  match s with
  | [] => (n, None)
  | c :: s' =>
      if is_digit c then
        let d := code c - 48 in
        if (2 ^ 64 - 1) / 10 + 1 <=? n then (2 ^ 64 - 1, Some true)
        else
          let n1 := n * 10 + d in
          if 2 ^ 64 - 1 <? n1 then (2 ^ 64 - 1, Some true)
          else ParseUint_loop s' n1
      else (0, Some false)
  end.

Definition ParseUint (s : bytes) : Z * option error :=
  match s with
  | [] => (0, Some (NumError (go "ParseUint") s false))
  | _ =>
      match ParseUint_loop s 0 with
      | (n, None) => (n, None)
      | (n, Some range) => (n, Some (NumError (go "ParseUint") s range))
      end
  end.

(** [ParseInt(s, 10, 64)], with the name [fn] of the calling function in
    its errors. *)
Definition ParseInt_as (fn : bytes) (s : bytes) : Z * option error :=
  match s with
  | [] => (0, Some (NumError fn s false))
  | c :: s' =>
      let neg := bool_decide (c = "-"%byte) in
      let digits := if decide (c = "+"%byte \/ c = "-"%byte) then s' else s in
      match digits with
      | [] => (0, Some (NumError fn s false))
      | _ =>
          match ParseUint_loop digits 0 with
          | (_, Some false) => (0, Some (NumError fn s false))
          | (un, _) =>
              if negb neg && (2 ^ 63 <=? un) then (2 ^ 63 - 1, Some (NumError fn s true))
              else if neg && (2 ^ 63 <? un) then (- 2 ^ 63, Some (NumError fn s true))
              else (if neg then - un else un, None)
          end
      end
  end.

Definition ParseInt : bytes -> Z * option error := ParseInt_as (go "ParseInt").

(** [Atoi(s)] is [ParseInt(s, 10, 0)] under the name [Atoi]; its fast path
    for short strings computes the same result. *)
Definition Atoi : bytes -> Z * option error := ParseInt_as (go "Atoi").

End strconv.

(** ** fmt: [%d] and [%s] *)

Module fmt.

(** The digits of [fmtInteger] for base ten: the last digit of [u] is put
    in front of [acc] while [u >= 10], then the leading digit. Twenty
    rounds are enough for 64 bits. *)
Fixpoint digits (fuel : nat) (u : Z) (acc : bytes) : bytes :=
  match fuel with
  | O => acc
  | S fuel' =>
      if u <? 10 then to_byte (48 + u) :: acc
      else let next := u / 10 in
           digits fuel' next (to_byte (48 + u - next * 10) :: acc)
  end.

(** [%d] of an integer. *)
Definition fmt_d (v : Z) : bytes :=
  if v <? 0 then "-"%byte :: digits 20 (- v) [] else digits 20 v [].

Inductive arg : Type :=
| Int (v : Z)
| Str (s : bytes).

(** [Sprintf(format, a...)] for formats made of literal bytes, [%d] and
    [%s], each verb with an operand of its kind, as in the module. *)
Fixpoint Sprintf (format : bytes) (a : list arg) : bytes :=
  match format with
  | [] => []
  | c :: format' =>
      if decide (c = "%"%byte) then
        match format', a with
        | v :: format'', Int n :: a' =>
            if decide (v = "d"%byte) then fmt_d n ++ Sprintf format'' a' else []
        | v :: format'', Str s :: a' =>
            if decide (v = "s"%byte) then s ++ Sprintf format'' a' else []
        | _, _ => []
        end
      else c :: Sprintf format' a
  end.

(** The white space of [isSpace] as it stands in a string: the number of
    bytes of the space rune a string starts with, 0 when it starts with
    none. *)
Definition space_width (s : bytes) : nat :=
  match map code s with
  | 9 :: _ | 10 :: _ | 11 :: _ | 12 :: _ | 13 :: _ | 32 :: _ => 1%nat
  | 194 :: 133 :: _ | 194 :: 160 :: _ => 2%nat
  | 225 :: 154 :: 128 :: _ => 3%nat
  | 226 :: 128 :: c :: _ =>
      if (128 <=? c) && (c <=? 138) || (c =? 168) || (c =? 169) || (c =? 175)
      then 3%nat else 0%nat
  | 226 :: 129 :: 159 :: _ => 3%nat
  | 227 :: 128 :: 128 :: _ => 3%nat
  | _ => 0%nat
  end.

(** [SkipSpace] of a scan where a newline is no space ([Sscanf]): white
    space is dropped; a line feed is an error; a carriage return in front
    of a line feed is dropped, which leads to the line feed. *)
Fixpoint SkipSpace (fuel : nat) (s : bytes) : bytes + error :=
  match fuel with
  | O => inl s
  | S fuel' =>
      match s with
      | [] => inl s
      | c :: s' =>
          if decide (c = x0a) then inr (scanError (go "unexpected newline"))
          else match space_width s with
               | O => inl s
               | n => SkipSpace fuel' (drop n s)
               end
      end
  end.

(** The longest prefix of decimal digits and what follows it. *)
Fixpoint span_digits (s : bytes) : bytes * bytes :=
  match s with
  | c :: s' =>
      if strconv.is_digit c then
        let '(tok, rest) := span_digits s' in (c :: tok, rest)
      else ([], s)
  | [] => ([], [])
  end.

(** [scanNumber]: at least one digit. *)
Definition scanNumber (s : bytes) : (bytes * bytes) + error :=
  match s with
  | [] => inr io_EOF
  | _ =>
      match span_digits s with
      | ([], _) => inr (scanError (go "expected integer"))
      | r => inl r
      end
  end.

(** A destination of a scan: [*int] and the like are [Signed bits],
    [*uint32] and the like [Unsigned bits]. *)
Inductive dest : Type :=
| Signed (bitSize : Z)
| Unsigned (bitSize : Z).

(** [scanInt] and [scanUint] for the verb [d]: the value and the rest of
    the input. *)
Definition scanOne (d : dest) (s : bytes) : (Z * bytes) + error :=
  match SkipSpace (length s) s with
  | inr e => inr e
  | inl [] => inr io_EOF
  | inl ((c :: s1') as s1) =>
      match d with
      | Signed n =>
          let '(sign, s2) :=
            if decide (c = "+"%byte \/ c = "-"%byte) then ([c], s1') else ([], s1) in
          match scanNumber s2 with
          | inr e => inr e
          | inl (tok, rest) =>
              match strconv.ParseInt (sign ++ tok) with
              | (_, Some e) => inr e
              | (i, None) =>
                  if (- 2 ^ (n - 1) <=? i) && (i <? 2 ^ (n - 1)) then inl (i, rest)
                  else inr (scanError (go "integer overflow on token " ++ sign ++ tok))
              end
          end
      | Unsigned n =>
          match scanNumber s1 with
          | inr e => inr e
          | inl (tok, rest) =>
              match strconv.ParseUint tok with
              | (_, Some e) => inr e
              | (i, None) =>
                  if i <? 2 ^ n then inl (i, rest)
                  else inr (scanError (go "unsigned integer overflow on token " ++ tok))
              end
          end
      end
  end.

(** [Sscanf(str, format, a...)] for formats made of literal bytes other
    than white space and of [%d], the only verb of the module: the values
    stored so far, in the order
    of the operands, and the error that stopped the scan. Input left
    after the format is not an error. (A scan reads at most 2^30 runes;
    that bound is not modelled.) *)
Fixpoint Sscanf (str format : bytes) (a : list dest) : list Z * option error :=
  match format with
  | [] => ([], None)
  | c :: format' =>
      if decide (c = "%"%byte) then
        match format' with
        | [] => ([], Some (scanError (go "missing verb: % at end of format string")))
        | verb :: format'' =>
            if decide (verb <> "d"%byte) then
              ([], Some (scanError (go "bad verb '%" ++ [verb] ++ go "' for integer")))
            else
              match SkipSpace (length str) str with
              | inr e => ([], Some e)
              | inl str1 =>
                  match a with
                  | [] =>
                      ([], Some (scanError
                                   (go "too few operands for format '%" ++ format' ++ go "'")))
                  | d :: a' =>
                      match scanOne d str1 with
                      | inr e => ([], Some e)
                      | inl (v, rest) =>
                          let '(vs, err) := Sscanf rest format'' a' in (v :: vs, err)
                      end
                  end
              end
        end
      else
        match str with
        | [] => ([], Some ErrUnexpectedEOF)
        | i :: str' =>
            if decide (c = i) then Sscanf str' format' a
            else ([], Some (scanError (go "input does not match format")))
        end
  end.

End fmt.

(** ** crypto/subtle *)

Module subtle.

(** [ConstantTimeByteEq(x, y)]: 1 if the bytes are equal, 0 otherwise. *)
Definition ConstantTimeByteEq (x y : Z) : Z :=
  Z.shiftr (uint32 (Z.lxor x y - 1)) 31.

(** The loop [v |= x[i] ^ y[i]] over two slices of one length. *)
Fixpoint fold_xor (x y : bytes) (v : Z) : Z :=
  match x, y with
  | a :: x', b :: y' => fold_xor x' y' (Z.lor v (Z.lxor (code a) (code b)))
  | _, _ => v
  end.

Definition ConstantTimeCompare (x y : bytes) : Z :=
  if decide (len x = len y) then ConstantTimeByteEq (fold_xor x y 0) 0
  else 0.

End subtle.

(** ** The environment of the module *)

(** What the module takes from outside: the process environment, the
    random source, and the two password hashing primitives of
    [golang.org/x/crypto]. One [World] is what one call observes. *)
Record World : Type := {
  (** [os.Getenv(key)], the empty string for a variable that is not set *)
  Getenv : bytes -> bytes;
  (** [crypto/rand.Read]: the bytes the source delivers, in order, or its
      failure *)
  entropy : nat -> byte;
  rand_fails : bool;
  (** [argon2.IDKey(password, salt, time, memory, threads, keyLen)];
      [None] when it panics (as it does for a number of rounds or a degree
      of parallelism below one) *)
  argon2_IDKey : bytes -> bytes -> Z -> Z -> Z -> Z -> option bytes;
  (** [bcrypt.GenerateFromPassword(password, cost)] *)
  bcrypt_GenerateFromPassword : bytes -> Z -> bytes * option error;
  (** [bcrypt.CompareHashAndPassword(hashedPassword, password)] *)
  bcrypt_CompareHashAndPassword : bytes -> bytes -> option error
}.

(** What the primitives promise: a derived key has the length asked for,
    whether the derivation panics does not depend on the password, and a
    bcrypt hash compares equal to the password it was made from. *)
Record primitives_sound (W : World) : Prop := {
  IDKey_length : forall password salt time memory threads keyLen key,
    argon2_IDKey W password salt time memory threads keyLen = Some key ->
    len key = keyLen;
  IDKey_panic : forall password password' salt time memory threads keyLen,
    argon2_IDKey W password salt time memory threads keyLen = None ->
    argon2_IDKey W password' salt time memory threads keyLen = None;
  bcrypt_complete : forall password cost hash,
    bcrypt_GenerateFromPassword W password cost = (hash, None) ->
    bcrypt_CompareHashAndPassword W hash password = None
}.

(** [rand.Read(b)] for a slice of [n] bytes. *)
Definition rand_Read (W : World) (n : Z) : bytes * option error :=
  if rand_fails W then (replicate (Z.to_nat n) x00, Some rand_error)
  else (map (entropy W) (seq 0 (Z.to_nat n)), None).

(** [argon2.IDKey] as a call that may panic. *)
Definition IDKey (W : World) (password salt : bytes)
    (time memory threads keyLen : Z) : outcome bytes :=
  match argon2_IDKey W password salt time memory threads keyLen with
  | Some key => Ret key
  | None => Panic
  end.

Module argon2.
Definition Version : Z := 19.
End argon2.

Module bcrypt.
Definition MinCost : Z := 4.
Definition MaxCost : Z := 31.
End bcrypt.

(** ** The module [authn] *)

Record argon2Params : Type := {
  memory : Z;       (* uint32 *)
  iterations : Z;   (* uint32 *)
  parallelism : Z;  (* uint8 *)
  saltLength : Z;   (* uint32 *)
  keyLength : Z     (* uint32 *)
}.

(** [argon2Params{}] *)
Definition argon2Params_zero : argon2Params :=
  {| memory := 0; iterations := 0; parallelism := 0; saltLength := 0; keyLength := 0 |}.

Definition newline : bytes := [x0a].

(** One variable of the configuration: [strconv.Atoi(os.Getenv(key))], the
    process ending when it is no number. *)
Definition config_int (W : World) (key : string) (format : string) : outcome Z :=
  match strconv.Atoi (Getenv W (go key)) with
  | (v, None) => Ret v
  | (_, Some err) => Fatal (Fatalf_err (go format ++ newline) err)
  end.

Definition configureArgon2id (W : World) : outcome (argon2Params * option error) :=
  memory ← config_int W "ARGON2ID_MEMORY" "Argon2id memory misconfigured: %v";
  iterations ← config_int W "ARGON2ID_ITERATIONS" "Argon2id iterations misconfigured: %v";
  parallelism ← config_int W "ARGON2ID_PARALLELISM" "Argon2id parallelism misconfigured: %v";
  saltLength ← config_int W "ARGON2ID_SALT_LENGTH" "Argon2id salt length misconfigured: %v";
  keyLength ← config_int W "ARGON2ID_KEY_LENGTH" "Argon2id key length misconfigured: %v";
  Ret ({| memory := uint32 memory;
          iterations := uint32 iterations;
          parallelism := uint8 parallelism;
          saltLength := uint32 saltLength;
          keyLength := uint32 keyLength |}, None).

Definition configureBcrypt (W : World) : outcome (Z * option error) :=
  match strconv.Atoi (Getenv W (go "BCRYPT_COST")) with
  | (_, Some err) => Fatal (Fatalf_err (go "Bcrypt cost misconfigured. %v") err)
  | (cost, None) =>
      if (cost <? bcrypt.MinCost) || (bcrypt.MaxCost <? cost)
      then Fatal (Fatal_text (InvalidCostError cost))
      else Ret (cost, None)
  end.

Definition decodeArgon2idHash (encodedHash : bytes)
    : argon2Params * bytes * bytes * option error :=
  let vals := Split encodedHash "$"%byte in
  if decide (len vals <> 5) then
    (argon2Params_zero, [], [], Some (errors_New (go "invalid encoding on hash")))
  else
  let opts := Split (vals !!! 2%nat) ","%byte in
  if decide (len opts <> 4) then
    (argon2Params_zero, [], [], Some (errors_New (go "invalid options encoding on hash")))
  else
  let '(scanned, err) :=
    fmt.Sscanf (vals !!! 2%nat) (go "v=%d,m=%d,t=%d,p=%d")
      [fmt.Signed 64; fmt.Unsigned 32; fmt.Unsigned 32; fmt.Unsigned 8] in
  let version := nth 0 scanned 0 in
  let params := {| memory := nth 1 scanned 0;
                   iterations := nth 2 scanned 0;
                   parallelism := nth 3 scanned 0;
                   saltLength := 0;
                   keyLength := 0 |} in
  match err with
  | Some err => (params, [], [], Some err)
  | None =>
  if decide (version <> argon2.Version) then
    (argon2Params_zero, [], [], Some (errors_New (go "incompatible Argon2 version")))
  else
  let '(salt, err) := base64.DecodeString (vals !!! 3%nat) in
  match err with
  | Some err => (params, salt, [], Some err)
  | None =>
  let params := {| memory := memory params;
                   iterations := iterations params;
                   parallelism := parallelism params;
                   saltLength := uint32 (len salt);
                   keyLength := keyLength params |} in
  let '(hash, err) := base64.DecodeString (vals !!! 4%nat) in
  match err with
  | Some err => (params, salt, [], Some err)
  | None =>
  let params := {| memory := memory params;
                   iterations := iterations params;
                   parallelism := parallelism params;
                   saltLength := saltLength params;
                   keyLength := uint32 (len hash) |} in
  (params, salt, hash, None)
  end end end.

(** On a wrong number of fields the function returns its result [err],
    which has not been assigned: it is [nil]. *)
Definition decodeBcryptHash (encodedHash : bytes) : bytes * option error :=
  let err : option error := None in
  let vals := Split encodedHash "$"%byte in
  if decide (len vals <> 4) then ([], err)
  else
  let '(hash, err) := base64.DecodeString (vals !!! 3%nat) in
  match err with
  | Some err => ([], Some err)
  | None => (hash, None)
  end.

Definition generateArgon2idHash (W : World) (password : bytes)
    : outcome (bytes * option error) :=
  '(params, err) ← configureArgon2id W;
  match err with
  | Some err => Fatal (Fatalf_err (go "Argon2id memory misconfigured: %v" ++ newline) err)
  | None =>
  let '(salt, err) := rand_Read W (saltLength params) in
  match err with
  | Some err => Ret ([], Some err)
  | None =>
  hash ← IDKey W password salt (iterations params) (memory params)
               (parallelism params) (keyLength params);
  let b64Salt := base64.EncodeToString salt in
  let b64Hash := base64.EncodeToString hash in
  let encodedHash :=
    fmt.Sprintf (go "$argon2id$v=%d,m=%d,t=%d,p=%d$%s$%s")
      [fmt.Int argon2.Version; fmt.Int (memory params); fmt.Int (iterations params);
       fmt.Int (parallelism params); fmt.Str b64Salt; fmt.Str b64Hash] in
  Ret (encodedHash, None)
  end end.

Definition generateBcryptHash (W : World) (password : bytes)
    : outcome (bytes * option error) :=
  '(cost, err) ← configureBcrypt W;
  match err with
  | Some err => Fatal (Fatalf_err (go "Bcrypt memory misconfigured: %v" ++ newline) err)
  | None =>
  let '(hash, err) := bcrypt_GenerateFromPassword W password cost in
  match err with
  | Some err => Fatal (Fatal_err err)
  | None =>
  let b64Hash := base64.EncodeToString hash in
  let encodedHash := fmt.Sprintf (go "$bcrypt$c=%d$%s") [fmt.Int cost; fmt.Str b64Hash] in
  Ret (encodedHash, None)
  end end.

Definition verifyArgon2idHash (W : World) (password encodedHash : bytes)
    : outcome (bool * option error) :=
  let '(params, salt, hash, err) := decodeArgon2idHash encodedHash in
  match err with
  | Some err => Fatal (Fatal_err err)
  | None =>
  verification ← IDKey W password salt (iterations params) (memory params)
                       (parallelism params) (keyLength params);
  if decide (subtle.ConstantTimeCompare hash verification = 1) then Ret (true, None)
  else Ret (false, Some (errors_New (go "invalid password")))
  end.

(** A failure of the decoder is logged and the comparison goes on with the
    empty hash the decoder returned. *)
Definition verifyBcryptHash (W : World) (password encodedHash : bytes)
    : outcome (bool * option error) :=
  let '(hash, _) := decodeBcryptHash encodedHash in
  match bcrypt_CompareHashAndPassword W hash password with
  | Some err => Ret (false, Some err)
  | None => Ret (true, None)
  end.

Definition hashFuncs (W : World)
    : gmap bytes (bytes -> outcome (bytes * option error)) :=
  {[ go "argon2id" := generateArgon2idHash W;
     go "bcrypt" := generateBcryptHash W ]}.

Definition verifyFuncs (W : World)
    : gmap bytes (bytes -> bytes -> outcome (bool * option error)) :=
  {[ go "argon2id" := verifyArgon2idHash W;
     go "bcrypt" := verifyBcryptHash W ]}.

Definition unsupported (algo : bytes) : fatal :=
  Fatalf_str (go "Algorithm %s is not supported." ++ newline) algo.

Definition GenerateHash (W : World) (algo password : bytes)
    : outcome (bytes * option error) :=
  match hashFuncs W !! algo with
  | None => Fatal (unsupported algo)
  | Some hashFunc => hashFunc password
  end.

Definition VerifyPassword (W : World) (password encodedHash : bytes)
    : outcome (bool * option error) :=
  let vals := Split encodedHash "$"%byte in
  if decide (len vals > 2) then
    let algo := vals !!! 1%nat in
    match verifyFuncs W !! algo with
    | None => Fatal (unsupported algo)
    | Some verifyFunc => verifyFunc password encodedHash
    end
  else Ret (false, None).

(** ** The encoding as the specification words it

    [$<algorithm>$<param-string>$<base64-salt>$<base64-hash>] for Argon2id,
    with the parameters [v=<version>,m=<memory>,t=<iterations>,p=<parallelism>],
    and [$<algorithm>$<param-string>$<base64-hash>] for bcrypt, with the
    parameter [c=<cost>]; base64 is unpadded and of the standard alphabet. *)
Module Grammar.

Definition is_decimal (s : bytes) : bool :=
  match s with
  | [] => false
  | _ => forallb strconv.is_digit s
  end.

(** A letter, a digit, [+] or [/]. *)
Definition is_base64_char (c : byte) : bool :=
  let n := code c in
  ((65 <=? n) && (n <=? 90)) || ((97 <=? n) && (n <=? 122))
  || ((48 <=? n) && (n <=? 57)) || (n =? 43) || (n =? 47).

(** Unpadded base64: no length is one more than a multiple of four. *)
Definition is_raw_base64 (s : bytes) : bool :=
  forallb is_base64_char s && negb (length s mod 4 =? 1)%nat.

Fixpoint strip_prefix (prefix s : bytes) : option bytes :=
  match prefix, s with
  | [], _ => Some s
  | p :: prefix', c :: s' => if decide (p = c) then strip_prefix prefix' s' else None
  | _ :: _, [] => None
  end.

(** A parameter [key<value>]. *)
Definition parameter (key : string) (value : bytes -> bool) (field : bytes) : bool :=
  match strip_prefix (go key) field with
  | Some v => value v
  | None => false
  end.

Definition is_version (s : bytes) : bool :=
  is_decimal s &&
  match strconv.ParseUint s with
  | (n, None) => n =? argon2.Version
  | _ => false
  end.

Definition argon2id_params (params : bytes) : bool :=
  match Split params ","%byte with
  | [v; m; t; p] =>
      parameter "v=" is_version v && parameter "m=" is_decimal m
      && parameter "t=" is_decimal t && parameter "p=" is_decimal p
  | _ => false
  end.

Definition argon2id (encodedHash : bytes) : bool :=
  match Split encodedHash "$"%byte with
  | [[]; algorithm; params; salt; hash] =>
      bool_decide (algorithm = go "argon2id") && argon2id_params params
      && is_raw_base64 salt && is_raw_base64 hash
  | _ => false
  end.

Definition bcrypt (encodedHash : bytes) : bool :=
  match Split encodedHash "$"%byte with
  | [[]; algorithm; params; hash] =>
      bool_decide (algorithm = go "bcrypt") && parameter "c=" is_decimal params
      && is_raw_base64 hash
  | _ => false
  end.

End Grammar.

(** ** A sample world

    Stand-ins for the primitives, to run the module on concrete inputs:
    the key derivation repeats its inputs up to the length asked for, the
    bcrypt stand-in stores the cost and the password. *)
Module Sample.

Definition env : list (bytes * bytes) :=
  [(go "ARGON2ID_MEMORY", go "65536");
   (go "ARGON2ID_ITERATIONS", go "6");
   (go "ARGON2ID_PARALLELISM", go "2");
   (go "ARGON2ID_SALT_LENGTH", go "16");
   (go "ARGON2ID_KEY_LENGTH", go "32");
   (go "BCRYPT_COST", go "4")].

Definition getenv (key : bytes) : bytes :=
  match list_find (fun kv => kv.1 = key) env with
  | Some (_, (_, v)) => v
  | None => []
  end.

Definition stretch (seed : bytes) (n : nat) : bytes :=
  map (fun i => nth (i mod S (length seed)) (seed ++ [x2a]) x00) (seq 0 n).

Definition idkey (password salt : bytes) (time memory threads keyLen : Z)
    : option bytes :=
  if (time <? 1) || (threads <? 1) || (keyLen <? 1) then None
  else Some (stretch (password ++ salt ++ [to_byte time; to_byte memory; to_byte threads])
                     (Z.to_nat keyLen)).

Definition generate (password : bytes) (cost : Z) : bytes * option error :=
  if 72 <? len password then ([], Some (bcrypt_error (go "password too long")))
  else (to_byte cost :: password, None).

Definition compare (hash password : bytes) : option error :=
  match hash with
  | [] => Some (bcrypt_error (go "hash too short"))
  | _ :: stored =>
      if decide (stored = password) then None
      else Some (bcrypt_error (go "hash is not the hash of the given password"))
  end.

Definition world : World :=
  {| Getenv := getenv;
     entropy := fun i => to_byte (7 * Z.of_nat i + 129);
     rand_fails := false;
     argon2_IDKey := idkey;
     bcrypt_GenerateFromPassword := generate;
     bcrypt_CompareHashAndPassword := compare |}.

End Sample.

(** Passwords and hashes of the examples. *)
Definition password123 : bytes := go "password123".
Definition wrongpass : bytes := go "wrongpass".

(** The hashes of "password123" in the sample world. *)
Definition sample_argon2id : bytes :=
  go "$argon2id$v=19,m=65536,t=6,p=2$gYiPlp2kq7K5wMfO1dzj6g$cGFzc3dvcmQxMjOBiI+WnaSrsrnAx87V3OPqBgACKnA".
Definition sample_bcrypt : bytes := go "$bcrypt$c=4$BHBhc3N3b3JkMTIz".

(** The Argon2id hash of the tests of the module, and the same with
    another version. *)
Definition test_argon2id : bytes :=
  go "$argon2id$v=19,m=65536,t=6,p=2$gQc4ZccIqosKqCMKYUgP8A$x/xg/7uiPsBrRd11wC0mtiM2fjeqHzqTcjs2fLMsiGw".
Definition test_argon2id_v16 : bytes :=
  go "$argon2id$v=16,m=65536,t=6,p=2$gQc4ZccIqosKqCMKYUgP8A$x/xg/7uiPsBrRd11wC0mtiM2fjeqHzqTcjs2fLMsiGw".

(** ** Notions used in the statements *)

(** The bytes of the alphabet. *)
Definition in_alphabet (c : byte) : Prop := base64.decodeMap c <> 255.

(** The number a string of digits stands for, read from the value [n]. *)
Definition value_from (n : Z) (ds : bytes) : Z :=
  fold_left (fun a c => a * 10 + (code c - 48)) ds n.

(** A string that does not go on with a digit. *)
Definition no_digit_ahead (s : bytes) : Prop :=
  match s with
  | [] => True
  | c :: _ => strconv.is_digit c = false
  end.

(** The parameters as [generateArgon2idHash] writes them. *)
Definition params_string (v m t p : Z) : bytes :=
  go "v=" ++ fmt.fmt_d v ++ go ",m=" ++ fmt.fmt_d m ++ go ",t=" ++ fmt.fmt_d t ++ go ",p=" ++ fmt.fmt_d p.

(** Evaluates the string literals of a goal. *)
Ltac eval_go :=
  repeat match goal with
    | |- context [go ?s] =>
        let l := eval vm_compute in (go s) in change (go s) with l
    end.

(** ** More worlds for the examples *)

(** The sample world with another environment. *)
Definition lookup_env (env : list (bytes * bytes)) (key : bytes) : bytes :=
  match list_find (fun kv => kv.1 = key) env with
  | Some (_, (_, v)) => v
  | None => []
  end.

Definition world_with (env : list (bytes * bytes)) : World :=
  {| Getenv := lookup_env env;
     entropy := entropy Sample.world;
     rand_fails := rand_fails Sample.world;
     argon2_IDKey := Sample.idkey;
     bcrypt_GenerateFromPassword := Sample.generate;
     bcrypt_CompareHashAndPassword := Sample.compare |}.

(** Values outside of the types of the parameters. *)
Definition env_wrapping : list (bytes * bytes) :=
  [(go "ARGON2ID_MEMORY", go "-1");
   (go "ARGON2ID_ITERATIONS", go "4294967299");
   (go "ARGON2ID_PARALLELISM", go "258");
   (go "ARGON2ID_SALT_LENGTH", go "16");
   (go "ARGON2ID_KEY_LENGTH", go "32");
   (go "BCRYPT_COST", go "32")].

(** The sample world whose random source fails. *)
Definition world_without_entropy : World :=
  {| Getenv := Getenv Sample.world;
     entropy := entropy Sample.world;
     rand_fails := true;
     argon2_IDKey := Sample.idkey;
     bcrypt_GenerateFromPassword := Sample.generate;
     bcrypt_CompareHashAndPassword := Sample.compare |}.

(** ** The router of [router.go]

    Handlers are values of a type [H]; a [Middleware] is applied to a
    handler and its result is assigned to a handler, so it is a function
    from handlers to handlers. The multiplexer is a value of a type [M]. *)

Record Route (H : Type) : Type := {
  Method : bytes;
  Path : bytes;
  Handler : H
}.
Arguments Method {H} _.
Arguments Path {H} _.
Arguments Handler {H} _.

Record Router (M H : Type) : Type := {
  Mux : M;
  Routes : gmap bytes (Route H);
  Middlewares : list (H -> H)
}.
Arguments Mux {M H} _.
Arguments Routes {M H} _.
Arguments Middlewares {M H} _.

(** The inner loop: [h = m(h)] for every middleware, in order. *)
Definition wrap_handler {H} (middlewares : list (H -> H)) (h : H) : H :=
  fold_left (fun h m => m h) middlewares h.

(** The variables of [WrapMiddlewares] while it runs: the map of the
    router, the variable [h] ([nil] at first), and the variable [route] of
    the [range] clause. *)
Record wrap_state (H : Type) : Type := {
  st_routes : gmap bytes (Route H);
  st_h : option H;
  st_route : option (Route H)
}.
Arguments st_routes {H} _.
Arguments st_h {H} _.
Arguments st_route {H} _.

(** One round of the outer loop for the entry [(key, value)] of the map:
    [range] copies the value into [route]; the assignment
    [route.Handler = h] is to that copy. *)
Definition wrap_step {H} (middlewares : list (H -> H))
    (s : wrap_state H) (entry : bytes * Route H) : wrap_state H :=
  let route := entry.2 in
  let h := wrap_handler middlewares (Handler route) in
  let route := {| Method := Method route; Path := Path route; Handler := h |} in
  {| st_routes := st_routes s; st_h := Some h; st_route := Some route |}.

(** [WrapMiddlewares]: the router after the call, the entries of the map
    visited in the order [visit] (Go leaves the order open). *)
Definition WrapMiddlewares_in {M H} (visit : list (bytes * Route H))
    (r : Router M H) : Router M H :=
  let s := fold_left (wrap_step (Middlewares r)) visit
             {| st_routes := Routes r; st_h := None; st_route := None |} in
  {| Mux := Mux r; Routes := st_routes s; Middlewares := Middlewares r |}.

Definition WrapMiddlewares {M H} (r : Router M H) : Router M H :=
  WrapMiddlewares_in (map_to_list (Routes r)) r.

(** * Properties *)

Section Bytes.

Lemma code_range (b : byte) : 0 <= code b < 256.
Proof.
  unfold code. pose proof (Byte.to_N_bounded b). lia.
Qed.

Lemma to_byte_code (b : byte) : to_byte (code b) = b.
Proof.
  unfold to_byte, code, byte_of_N_total.
  rewrite Z.mod_small by (pose proof (Byte.to_N_bounded b); lia).
  now rewrite N2Z.id, Byte.of_to_N.
Qed.

Lemma code_to_byte (v : Z) : code (to_byte v) = v mod 256.
Proof.
  unfold to_byte, code, byte_of_N_total.
  pose proof (Z.mod_pos_bound v 256 eq_refl) as Hv.
  destruct (Byte.of_N (Z.to_N (v mod 256))) as [b|] eqn:E.
  - apply Byte.to_of_N in E. rewrite E. lia.
  - exfalso. pose proof (Byte.to_of_N_option_map (Z.to_N (v mod 256))) as H.
    rewrite E in H. simpl in H.
    destruct (N.leb_spec (Z.to_N (v mod 256)) 255); [discriminate | lia].
Qed.

Lemma code_inj (a b : byte) : code a = code b -> a = b.
Proof. intros H. rewrite <- (to_byte_code a), <- (to_byte_code b). now rewrite H. Qed.

Lemma to_byte_eq (v : Z) (b : byte) : v mod 256 = code b -> to_byte v = b.
Proof.
  intros H. apply code_inj. now rewrite code_to_byte.
Qed.

End Bytes.

Section Bits.

Lemma land_pow2_small (k y n : Z) :
  0 <= n -> 0 <= y < 2 ^ n -> Z.land (k * 2 ^ n) y = 0.
Proof.
  intros Hn Hy. apply Z.bits_inj'. intros m Hm.
  rewrite Z.land_spec, Z.bits_0.
  destruct (Z.lt_ge_cases m n) as [Hlt | Hge].
  - now rewrite Z.mul_pow2_bits_low.
  - rewrite andb_false_iff. right.
    destruct (Z.eq_dec y 0) as [-> | Hy0]; [apply Z.bits_0 |].
    apply Z.bits_above_log2; [lia |].
    assert (Z.log2 y < n) by (apply Z.log2_lt_pow2; lia). lia.
Qed.

Lemma lor_pow2_add (k y n : Z) :
  0 <= n -> 0 <= y < 2 ^ n -> Z.lor (k * 2 ^ n) y = k * 2 ^ n + y.
Proof.
  intros Hn Hy. pose proof (land_pow2_small k y n Hn Hy) as H.
  rewrite <- Z.lxor_lor by exact H. symmetry. now apply Z.add_nocarry_lxor.
Qed.

End Bits.

Section Quantum.

Lemma land63 (v : Z) : Z.land v 63 = v mod 64.
Proof. change 63 with (Z.ones 6). now rewrite Z.land_ones. Qed.

Lemma shiftl_lor3 (A B C : Z) :
  0 <= A < 256 -> 0 <= B < 256 -> 0 <= C < 256 ->
  Z.lor (Z.lor (Z.shiftl A 16) (Z.shiftl B 8)) C = A * 65536 + B * 256 + C.
Proof.
  intros HA HB HC. rewrite !Z.shiftl_mul_pow2 by lia.
  rewrite (lor_pow2_add A (B * 2 ^ 8) 16) by lia.
  replace (A * 2 ^ 16 + B * 2 ^ 8) with ((A * 256 + B) * 2 ^ 8) by lia.
  rewrite lor_pow2_add by lia. lia.
Qed.

Lemma quantum_val_add (d0 d1 d2 d3 : Z) :
  0 <= d0 < 64 -> 0 <= d1 < 64 -> 0 <= d2 < 64 -> 0 <= d3 < 64 ->
  base64.quantum_val d0 d1 d2 d3 = d0 * 262144 + d1 * 4096 + d2 * 64 + d3.
Proof.
  intros H0 H1 H2 H3. unfold base64.quantum_val.
  rewrite !Z.shiftl_mul_pow2 by lia.
  rewrite (lor_pow2_add d0 (d1 * 2 ^ 12) 18) by lia.
  replace (d0 * 2 ^ 18 + d1 * 2 ^ 12) with ((d0 * 64 + d1) * 2 ^ 12) by lia.
  rewrite (lor_pow2_add _ (d2 * 2 ^ 6) 12) by lia.
  replace ((d0 * 64 + d1) * 2 ^ 12 + d2 * 2 ^ 6)
    with (((d0 * 64 + d1) * 64 + d2) * 2 ^ 6) by lia.
  rewrite lor_pow2_add by lia. lia.
Qed.

Lemma sextet_range (v k : Z) : 0 <= Z.land (Z.shiftr v k) 63 < 64.
Proof. rewrite land63. apply Z.mod_pos_bound. lia. Qed.

(** The four sextets of a 24-bit value put it together again. *)
Lemma quantum_val_sextets (v : Z) :
  0 <= v < 2 ^ 24 ->
  base64.quantum_val (Z.land (Z.shiftr v 18) 63) (Z.land (Z.shiftr v 12) 63)
                     (Z.land (Z.shiftr v 6) 63) (Z.land v 63) = v.
Proof.
  intros Hv. rewrite <- (Z.shiftr_0_r v) at 4.
  rewrite quantum_val_add by apply sextet_range.
  rewrite !land63, !Z.shiftr_div_pow2 by lia.
  change (2 ^ 18) with 262144. change (2 ^ 12) with 4096. change (2 ^ 6) with 64.
  change (2 ^ 0) with 1. change (2 ^ 24) with 16777216 in Hv.
  Z.div_mod_to_equations. lia.
Qed.

End Quantum.

Section Base64.

Lemma decodeMap_encode_at (d : Z) :
  0 <= d < 64 -> base64.decodeMap (base64.encode_at d) = d.
Proof.
  intros Hd. unfold base64.encode_at.
  rewrite <- (Z2Nat.id d) at 2 by lia.
  assert (Z.to_nat d < 64)%nat as Hn by lia.
  remember (Z.to_nat d) as n eqn:En. clear En Hd d.
  do 64 (destruct n as [|n]; [reflexivity |]). lia.
Qed.

Lemma encode_at_alphabet (v k : Z) :
  in_alphabet (base64.encode_at (Z.land (Z.shiftr v k) 63)).
Proof.
  unfold in_alphabet. pose proof (sextet_range v k).
  rewrite decodeMap_encode_at; lia.
Qed.

Lemma encode_at_alphabet0 (v : Z) : in_alphabet (base64.encode_at (Z.land v 63)).
Proof. rewrite <- (Z.shiftr_0_r v). apply encode_at_alphabet. Qed.

Lemma EncodeToString_alphabet (src : bytes) :
  Forall in_alphabet (base64.EncodeToString src).
Proof.
  induction src as [src IH] using (induction_ltof1 _ (@length byte)).
  unfold ltof in IH.
  destruct src as [|a [|b [|c rest]]]; cbn [base64.EncodeToString].
  - constructor.
  - repeat constructor; apply encode_at_alphabet.
  - repeat constructor; apply encode_at_alphabet.
  - repeat (constructor; [first [apply encode_at_alphabet | apply encode_at_alphabet0] |]).
    apply IH. simpl. lia.
Qed.

Lemma Decode_cons (c : byte) (rest : bytes) (si : Z) (q : list Z) :
  in_alphabet c ->
  base64.Decode (c :: rest) si q =
    let q' := q ++ [base64.decodeMap c] in
    if decide (length q' = 4%nat) then
      let '(d, _) := base64.flush q' (si + 1) in
      let '(ds, err) := base64.Decode rest (si + 1) [] in
      (d ++ ds, err)
    else base64.Decode rest (si + 1) q'.
Proof.
  intros Hc. cbn [base64.Decode]. destruct (decide (base64.decodeMap c = 255)); [done | reflexivity].
Qed.

Lemma val3_range (a b c : byte) :
  Z.lor (Z.lor (Z.shiftl (code a) 16) (Z.shiftl (code b) 8)) (code c)
    = code a * 65536 + code b * 256 + code c.
Proof. apply shiftl_lor3; apply code_range. Qed.

Lemma val2_range (a b : byte) :
  Z.lor (Z.shiftl (code a) 16) (Z.shiftl (code b) 8) = code a * 65536 + code b * 256.
Proof.
  rewrite <- (Z.lor_0_r (Z.lor _ _)). change 0 with (code x00) at 1.
  rewrite val3_range. change (code x00) with 0. lia.
Qed.

Lemma val1_range (a : byte) : Z.shiftl (code a) 16 = code a * 65536.
Proof. rewrite Z.shiftl_mul_pow2 by lia. reflexivity. Qed.

Lemma Decode_Encode3 (a b c : byte) (rest : bytes) (si : Z) :
  base64.Decode (base64.EncodeToString (a :: b :: c :: rest)) si [] =
    let '(ds, err) := base64.Decode (base64.EncodeToString rest) (si + 1 + 1 + 1 + 1) [] in
    (a :: b :: c :: ds, err).
Proof.
  cbn [base64.EncodeToString]. rewrite val3_range.
  pose proof (code_range a) as Ha. pose proof (code_range b) as Hb.
  pose proof (code_range c) as Hc.
  set (v := code a * 65536 + code b * 256 + code c).
  assert (0 <= v < 2 ^ 24) as Hv by (subst v; change (2 ^ 24) with 16777216; lia).
  rewrite Decode_cons by apply encode_at_alphabet. cbn zeta.
  rewrite decodeMap_encode_at by apply sextet_range. simpl app.
  destruct (decide _) as [E|_]; [discriminate E |].
  rewrite Decode_cons by apply encode_at_alphabet. cbn zeta.
  rewrite decodeMap_encode_at by apply sextet_range. simpl app.
  destruct (decide _) as [E|_]; [discriminate E |].
  rewrite Decode_cons by apply encode_at_alphabet. cbn zeta.
  rewrite decodeMap_encode_at by apply sextet_range. simpl app.
  destruct (decide _) as [E|_]; [discriminate E |].
  rewrite Decode_cons by apply encode_at_alphabet0. cbn zeta.
  rewrite decodeMap_encode_at by (rewrite <- (Z.shiftr_0_r v); apply sextet_range).
  simpl app.
  destruct (decide _) as [_|E]; [| exfalso; apply E; reflexivity].
  cbn [base64.flush]. rewrite quantum_val_sextets by exact Hv.
  destruct (base64.Decode _ _ _) as [ds err]. simpl app.
  f_equal. f_equal; [| f_equal; [| f_equal]]; apply to_byte_eq;
    rewrite ?Z.shiftr_div_pow2 by lia; subst v;
    change (2 ^ 16) with 65536; change (2 ^ 8) with 256;
    Z.div_mod_to_equations; lia.
Qed.

Lemma Decode_Encode2 (a b : byte) (si : Z) :
  base64.Decode (base64.EncodeToString [a; b]) si [] = ([a; b], None).
Proof.
  cbn [base64.EncodeToString]. rewrite val2_range.
  pose proof (code_range a) as Ha. pose proof (code_range b) as Hb.
  set (v := code a * 65536 + code b * 256).
  assert (0 <= v < 2 ^ 24) as Hv by (subst v; change (2 ^ 24) with 16777216; lia).
  assert (Z.land v 63 = 0) as H0.
  { rewrite land63. subst v. Z.div_mod_to_equations; lia. }
  rewrite Decode_cons by apply encode_at_alphabet. cbn zeta.
  rewrite decodeMap_encode_at by apply sextet_range. simpl app.
  destruct (decide _) as [E|_]; [discriminate E |].
  rewrite Decode_cons by apply encode_at_alphabet. cbn zeta.
  rewrite decodeMap_encode_at by apply sextet_range. simpl app.
  destruct (decide _) as [E|_]; [discriminate E |].
  rewrite Decode_cons by apply encode_at_alphabet. cbn zeta.
  rewrite decodeMap_encode_at by apply sextet_range. simpl app.
  destruct (decide _) as [E|_]; [discriminate E |].
  pose proof (quantum_val_sextets v Hv) as Hq. rewrite H0 in Hq.
  cbn [base64.Decode base64.flush]. rewrite Hq.
  assert (to_byte v = x00) as Hz.
  { apply to_byte_eq. change (code x00) with 0. subst v. Z.div_mod_to_equations; lia. }
  destruct (decide _) as [_|E]; [| done].
  f_equal. f_equal; [| f_equal]; apply to_byte_eq;
    rewrite ?Z.shiftr_div_pow2 by lia; subst v;
    change (2 ^ 16) with 65536; change (2 ^ 8) with 256;
    Z.div_mod_to_equations; lia.
Qed.

Lemma Decode_Encode1 (a : byte) (si : Z) :
  base64.Decode (base64.EncodeToString [a]) si [] = ([a], None).
Proof.
  cbn [base64.EncodeToString]. rewrite val1_range.
  pose proof (code_range a) as Ha.
  set (v := code a * 65536).
  assert (0 <= v < 2 ^ 24) as Hv by (subst v; change (2 ^ 24) with 16777216; lia).
  assert (Z.land v 63 = 0) as H0.
  { rewrite land63. subst v. Z.div_mod_to_equations; lia. }
  assert (Z.land (Z.shiftr v 6) 63 = 0) as H6.
  { rewrite land63, Z.shiftr_div_pow2 by lia. subst v. change (2 ^ 6) with 64.
    Z.div_mod_to_equations; lia. }
  rewrite Decode_cons by apply encode_at_alphabet. cbn zeta.
  rewrite decodeMap_encode_at by apply sextet_range. simpl app.
  destruct (decide _) as [E|_]; [discriminate E |].
  rewrite Decode_cons by apply encode_at_alphabet. cbn zeta.
  rewrite decodeMap_encode_at by apply sextet_range. simpl app.
  destruct (decide _) as [E|_]; [discriminate E |].
  pose proof (quantum_val_sextets v Hv) as Hq. rewrite H0, H6 in Hq.
  cbn [base64.Decode base64.flush]. rewrite Hq.
  assert (to_byte v = x00) as Hz.
  { apply to_byte_eq. change (code x00) with 0. subst v. Z.div_mod_to_equations; lia. }
  assert (to_byte (Z.shiftr v 8) = x00) as Hz8.
  { apply to_byte_eq. change (code x00) with 0. rewrite Z.shiftr_div_pow2 by lia.
    subst v. change (2 ^ 8) with 256. Z.div_mod_to_equations; lia. }
  destruct (decide _) as [_|E]; [| exfalso; apply E; done].
  f_equal. f_equal. apply to_byte_eq.
  rewrite Z.shiftr_div_pow2 by lia. subst v. change (2 ^ 16) with 65536.
  Z.div_mod_to_equations; lia.
Qed.

(** Decoding what the encoder wrote gives the bytes back, without error. *)
Lemma Decode_EncodeToString (src : bytes) (si : Z) :
  base64.Decode (base64.EncodeToString src) si [] = (src, None).
Proof.
  revert si.
  induction src as [src IH] using (induction_ltof1 _ (@length byte)).
  unfold ltof in IH. intros si.
  destruct src as [|a [|b [|c rest]]].
  - reflexivity.
  - apply Decode_Encode1.
  - apply Decode_Encode2.
  - rewrite Decode_Encode3, IH by (simpl; lia). reflexivity.
Qed.

Lemma DecodeString_EncodeToString (src : bytes) :
  base64.DecodeString (base64.EncodeToString src) = (src, None).
Proof. apply Decode_EncodeToString. Qed.

End Base64.

Section SplitFacts.

Lemma Split_nonempty (s : bytes) (sep : byte) : Split s sep <> [].
Proof.
  destruct s as [|c s]; simpl; [discriminate |].
  destruct (decide (c = sep)); [discriminate |].
  destruct (Split s sep); discriminate.
Qed.

Lemma Split_cons_ne (c : byte) (s : bytes) (sep : byte) :
  c <> sep ->
  Split (c :: s) sep = (c :: hd [] (Split s sep)) :: tl (Split s sep).
Proof.
  intros Hc. simpl. destruct (decide (c = sep)); [done |].
  pose proof (Split_nonempty s sep). destruct (Split s sep); done.
Qed.

(** A string without the separator is one field. *)
Lemma Split_none (s : bytes) (sep : byte) : sep ∉ s -> Split s sep = [s].
Proof.
  induction s as [|c s IH]; intros Hs; [reflexivity |].
  apply not_elem_of_cons in Hs as [Hc Hs].
  rewrite Split_cons_ne by congruence. now rewrite IH.
Qed.

(** The first field ends at the first separator. *)
Lemma Split_app (s1 s2 : bytes) (sep : byte) :
  sep ∉ s1 -> Split (s1 ++ sep :: s2) sep = s1 :: Split s2 sep.
Proof.
  induction s1 as [|c s1 IH]; intros Hs.
  - simpl. destruct (decide (sep = sep)); done.
  - apply not_elem_of_cons in Hs as [Hc Hs].
    rewrite <- app_comm_cons, Split_cons_ne by congruence. now rewrite IH.
Qed.

End SplitFacts.

Section Decimal.

Import strconv fmt.

Lemma is_digit_code (c : byte) : is_digit c = true <-> 48 <= code c <= 57.
Proof. unfold is_digit. rewrite andb_true_iff, !Z.leb_le. tauto. Qed.

Lemma digit_byte (u : Z) :
  0 <= u < 10 -> is_digit (to_byte (48 + u)) = true /\ code (to_byte (48 + u)) = 48 + u.
Proof.
  intros Hu. assert (code (to_byte (48 + u)) = 48 + u) as H.
  { rewrite code_to_byte. apply Z.mod_small. lia. }
  split; [| exact H]. apply is_digit_code. lia.
Qed.

Lemma value_from_ge (ds : bytes) (n : Z) :
  Forall (fun c => is_digit c = true) ds -> 0 <= n -> n <= value_from n ds.
Proof.
  revert n. induction ds as [|c ds IH]; intros n Hds Hn; simpl; [lia |].
  inversion Hds as [|? ? Hc Hds']; subst. apply is_digit_code in Hc.
  etransitivity; [| apply IH; [assumption | lia]]. lia.
Qed.

Lemma value_from_snoc (ds : bytes) (c : byte) (n : Z) :
  value_from n (ds ++ [c]) = value_from n ds * 10 + (code c - 48).
Proof. unfold value_from. now rewrite fold_left_app. Qed.

(** What [digits] writes in front of [acc]: the decimal digits of [u]. *)
Lemma digits_spec (fuel : nat) : forall (u : Z) (acc : bytes),
  0 <= u < 10 ^ Z.of_nat (S fuel) ->
  exists ds, digits (S fuel) u acc = ds ++ acc /\ ds <> [] /\
    Forall (fun c => is_digit c = true) ds /\
    forall n, value_from n ds = n * 10 ^ len ds + u.
Proof.
  induction fuel as [|fuel IH]; intros u acc Hu.
  - change (10 ^ Z.of_nat 1) with 10 in Hu. cbn [digits].
    destruct (Z.ltb_spec u 10) as [Hlt | Hge]; [| lia].
    destruct (digit_byte u) as [Hd Hc]; [lia |].
    exists [to_byte (48 + u)]. repeat split; [done | by constructor |].
    intros n. cbn. rewrite Hc. unfold len. cbn. lia.
  - remember (S fuel) as fuel' eqn:Ef. cbn [digits].
    destruct (Z.ltb_spec u 10) as [Hlt | Hge].
    + destruct (digit_byte u) as [Hd Hc]; [lia |].
      exists [to_byte (48 + u)]. repeat split; [done | by constructor |].
      intros n. cbn. rewrite Hc. unfold len. cbn. lia.
    + assert (0 <= u / 10 < 10 ^ Z.of_nat fuel') as Hu'.
      { rewrite Nat2Z.inj_succ, Z.pow_succ_r in Hu by lia.
        Z.div_mod_to_equations. lia. }
      destruct (IH (u / 10) (to_byte (48 + u - u / 10 * 10) :: acc) Hu')
        as (ds & Hds & Hne & Hall & Hval).
      replace (48 + u - u / 10 * 10) with (48 + u mod 10) in *
        by (Z.div_mod_to_equations; lia).
      destruct (digit_byte (u mod 10)) as [Hd Hc];
        [apply Z.mod_pos_bound; lia |].
      exists (ds ++ [to_byte (48 + u mod 10)]). repeat split.
      * rewrite Hds. now rewrite <- app_assoc.
      * destruct ds; discriminate.
      * apply Forall_app. split; [assumption | by constructor].
      * intros n. rewrite value_from_snoc, Hval, Hc.
        unfold len. rewrite length_app, Nat2Z.inj_add. cbn [length].
        rewrite Z.pow_add_r by lia. change (10 ^ Z.of_nat 1) with 10.
        Z.div_mod_to_equations. lia.
Qed.

(** [%d] of a number of 64 bits: its digits. *)
Lemma fmt_d_spec (v : Z) :
  0 <= v < 2 ^ 64 ->
  fmt_d v <> [] /\ Forall (fun c => is_digit c = true) (fmt_d v) /\
  value_from 0 (fmt_d v) = v.
Proof.
  intros Hv. unfold fmt_d. destruct (Z.ltb_spec v 0); [lia |].
  destruct (digits_spec 19 v []) as (ds & Hds & Hne & Hall & Hval).
  { split; [lia |]. eapply Z.lt_le_trans; [apply Hv |]. vm_compute. discriminate. }
  rewrite Hds, app_nil_r. repeat split; [assumption .. |]. rewrite Hval. lia.
Qed.

Lemma ParseUint_loop_app (ds s : bytes) : forall n,
  Forall (fun c => is_digit c = true) ds -> 0 <= n ->
  value_from n ds < 2 ^ 64 ->
  ParseUint_loop (ds ++ s) n = ParseUint_loop s (value_from n ds).
Proof.
  induction ds as [|c ds IH]; intros n Hds Hn Hv; [reflexivity |].
  inversion Hds as [|? ? Hc Hds']; subst.
  pose proof Hc as Hc'. apply is_digit_code in Hc'.
  assert (n * 10 + (code c - 48) <= value_from n (c :: ds)) as Hle.
  { apply (value_from_ge ds); [assumption | lia]. }
  cbn [app ParseUint_loop]. rewrite Hc.
  change ((2 ^ 64 - 1) / 10 + 1) with 1844674407370955162.
  change (2 ^ 64 - 1) with 18446744073709551615.
  change (2 ^ 64) with 18446744073709551616 in Hv.
  destruct (Z.leb_spec 1844674407370955162 n); [lia |].
  destruct (Z.ltb_spec 18446744073709551615 (n * 10 + (code c - 48))); [lia |].
  apply IH; [assumption | lia | exact Hv].
Qed.

Lemma ParseUint_fmt_d (v : Z) :
  0 <= v < 2 ^ 64 -> ParseUint (fmt_d v) = (v, None).
Proof.
  intros Hv. destruct (fmt_d_spec v Hv) as (Hne & Hall & Hval).
  unfold ParseUint. destruct (fmt_d v) as [|c ds] eqn:E; [done |].
  rewrite <- (app_nil_r (c :: ds)), ParseUint_loop_app by (auto; lia).
  cbn [ParseUint_loop]. now rewrite Hval.
Qed.

Lemma span_digits_app (ds rest : bytes) :
  Forall (fun c => is_digit c = true) ds -> no_digit_ahead rest ->
  span_digits (ds ++ rest) = (ds, rest).
Proof.
  intros Hds Hrest. induction Hds as [|c ds Hc _ IH].
  - destruct rest as [|c rest]; [reflexivity |]. simpl in *. now rewrite Hrest.
  - cbn [app span_digits]. now rewrite Hc, IH.
Qed.

Lemma SkipSpace_digit (fuel : nat) (c : byte) (s : bytes) :
  is_digit c = true -> SkipSpace fuel (c :: s) = inl (c :: s).
Proof.
  intros Hc. destruct fuel as [|fuel]; [reflexivity |].
  destruct c; try discriminate Hc; reflexivity.
Qed.

Lemma scanOne_Unsigned (n v : Z) (rest : bytes) :
  0 <= n <= 64 -> 0 <= v < 2 ^ n -> no_digit_ahead rest ->
  scanOne (Unsigned n) (fmt_d v ++ rest) = inl (v, rest).
Proof.
  intros Hn Hv Hrest.
  assert (0 <= v < 2 ^ 64) as Hv64.
  { split; [lia |]. eapply Z.lt_le_trans; [apply Hv |].
    apply Z.pow_le_mono_r; lia. }
  destruct (fmt_d_spec v Hv64) as (Hne & Hall & Hval).
  pose proof (ParseUint_fmt_d v Hv64) as HP.
  pose proof (span_digits_app (fmt_d v) rest Hall Hrest) as Hspan.
  destruct (fmt_d v) as [|c ds] eqn:E; [done |].
  assert (is_digit c = true) as Hc by (now inversion Hall).
  unfold scanOne. cbn [app] in *. rewrite SkipSpace_digit by exact Hc.
  unfold scanNumber. rewrite Hspan, HP.
  destruct (Z.ltb_spec v (2 ^ n)); [reflexivity | lia].
Qed.

End Decimal.

Section Scan.

Import strconv fmt.

Lemma digit_not_sign (c : byte) :
  is_digit c = true -> c <> "+"%byte /\ c <> "-"%byte /\ c <> "%"%byte.
Proof. intros Hc. repeat split; intros ->; discriminate Hc. Qed.

Lemma ParseInt_fmt_d (v : Z) :
  0 <= v < 2 ^ 63 -> ParseInt (fmt_d v) = (v, None).
Proof.
  intros Hv.
  assert (0 <= v < 2 ^ 64) as Hv64 by (change (2 ^ 64) with (2 * 2 ^ 63); lia).
  destruct (fmt_d_spec v Hv64) as (Hne & Hall & Hval).
  unfold ParseInt, ParseInt_as. destruct (fmt_d v) as [|c ds] eqn:E; [done |].
  assert (is_digit c = true) as Hc by (now inversion Hall).
  destruct (digit_not_sign c Hc) as (Hp & Hm & _).
  rewrite bool_decide_eq_false_2 by exact Hm.
  destruct (decide (c = "+"%byte \/ c = "-"%byte)) as [[?|?]|_]; [done | done |].
  rewrite <- (app_nil_r (c :: ds)), ParseUint_loop_app by (auto; lia).
  cbn [ParseUint_loop]. rewrite Hval. cbn [negb andb].
  destruct (Z.leb_spec (2 ^ 63) v); [lia | reflexivity].
Qed.

Lemma scanOne_Signed (v : Z) (rest : bytes) :
  0 <= v < 2 ^ 63 -> no_digit_ahead rest ->
  scanOne (Signed 64) (fmt_d v ++ rest) = inl (v, rest).
Proof.
  intros Hv Hrest.
  assert (0 <= v < 2 ^ 64) as Hv64 by (change (2 ^ 64) with (2 * 2 ^ 63); lia).
  destruct (fmt_d_spec v Hv64) as (Hne & Hall & Hval).
  pose proof (ParseInt_fmt_d v Hv) as HP.
  pose proof (span_digits_app (fmt_d v) rest Hall Hrest) as Hspan.
  destruct (fmt_d v) as [|c ds] eqn:E; [done |].
  assert (is_digit c = true) as Hc by (now inversion Hall).
  destruct (digit_not_sign c Hc) as (Hp & Hm & _).
  unfold scanOne. cbn [app] in *. rewrite SkipSpace_digit by exact Hc.
  destruct (decide (c = "+"%byte \/ c = "-"%byte)) as [[?|?]|_]; [done | done |].
  unfold scanNumber. rewrite Hspan. cbn [app]. rewrite HP.
  change (64 - 1) with 63.
  destruct (Z.leb_spec (- 2 ^ 63) v); [| lia].
  destruct (Z.ltb_spec v (2 ^ 63)); [reflexivity | lia].
Qed.

(** A literal byte of the format consumes the same byte of the input. *)
Lemma Sscanf_literal (c : byte) (str format : bytes) (a : list dest) :
  c <> "%"%byte -> Sscanf (c :: str) (c :: format) a = Sscanf str format a.
Proof.
  intros Hc. cbn [Sscanf]. destruct (decide (c = "%"%byte)); [done |].
  destruct (decide (c = c)); done.
Qed.

(** The verb [%d] stores the number the input starts with. *)
Lemma Sscanf_d (d : dest) (v : Z) (ds rest format : bytes) (a : list dest) :
  ds <> [] -> Forall (fun c => is_digit c = true) ds ->
  scanOne d (ds ++ rest) = inl (v, rest) ->
  Sscanf (ds ++ rest) ("%"%byte :: "d"%byte :: format) (d :: a) =
    let '(vs, err) := Sscanf rest format a in (v :: vs, err).
Proof.
  intros Hne Hall Hscan. cbn [Sscanf].
  destruct (decide ("%"%byte = "%"%byte)); [| done].
  destruct (decide ("d"%byte <> "d"%byte)); [done |].
  destruct ds as [|c ds]; [done |].
  assert (is_digit c = true) as Hc by (now inversion Hall).
  cbn [app] in *. rewrite SkipSpace_digit by exact Hc. now rewrite Hscan.
Qed.

Lemma Sscanf_params_string (v m t p : Z) :
  0 <= v < 2 ^ 63 -> 0 <= m < 2 ^ 32 -> 0 <= t < 2 ^ 32 -> 0 <= p < 2 ^ 8 ->
  Sscanf (params_string v m t p) (go "v=%d,m=%d,t=%d,p=%d")
    [Signed 64; Unsigned 32; Unsigned 32; Unsigned 8] = ([v; m; t; p], None).
Proof.
  intros Hv Hm Ht Hp.
  assert (forall n x, 0 <= n <= 64 -> 0 <= x < 2 ^ n -> 0 <= x < 2 ^ 64) as H64.
  { intros n x Hn Hx. split; [lia |]. eapply Z.lt_le_trans; [apply Hx |].
    apply Z.pow_le_mono_r; lia. }
  destruct (fmt_d_spec v (H64 63 v ltac:(lia) Hv)) as (Nv & Av & _).
  destruct (fmt_d_spec m (H64 32 m ltac:(lia) Hm)) as (Nm & Am & _).
  destruct (fmt_d_spec t (H64 32 t ltac:(lia) Ht)) as (Nt & At & _).
  destruct (fmt_d_spec p (H64 8 p ltac:(lia) Hp)) as (Np & Ap & _).
  unfold params_string. change (go "v=%d,m=%d,t=%d,p=%d") with
    ("v"%byte :: "="%byte :: "%"%byte :: "d"%byte ::
     ","%byte :: "m"%byte :: "="%byte :: "%"%byte :: "d"%byte ::
     ","%byte :: "t"%byte :: "="%byte :: "%"%byte :: "d"%byte ::
     ","%byte :: "p"%byte :: "="%byte :: "%"%byte :: "d"%byte :: []).
  change (go "v=") with ["v"%byte; "="%byte].
  change (go ",m=") with [","%byte; "m"%byte; "="%byte].
  change (go ",t=") with [","%byte; "t"%byte; "="%byte].
  change (go ",p=") with [","%byte; "p"%byte; "="%byte].
  cbn [app]. rewrite !Sscanf_literal by discriminate.
  rewrite (Sscanf_d (Signed 64) v) by (auto; apply scanOne_Signed; done).
  rewrite !Sscanf_literal by discriminate.
  rewrite (Sscanf_d (Unsigned 32) m) by (auto; apply scanOne_Unsigned; done).
  rewrite !Sscanf_literal by discriminate.
  rewrite (Sscanf_d (Unsigned 32) t) by (auto; apply scanOne_Unsigned; done).
  rewrite !Sscanf_literal by discriminate.
  rewrite <- (app_nil_r (fmt_d p)).
  rewrite (Sscanf_d (Unsigned 8) p) by (auto; apply scanOne_Unsigned; done).
  reflexivity.
Qed.

End Scan.

Section Subtle.

Import subtle.

Lemma log2_byte (a : Z) : 0 <= a < 256 -> Z.log2 a < 8.
Proof.
  intros Ha. destruct (Z.eq_dec a 0) as [-> | Hne]; [reflexivity |].
  apply Z.log2_lt_pow2; lia.
Qed.

Lemma byte_of_log2 (a : Z) : 0 <= a -> Z.log2 a < 8 -> 0 <= a < 256.
Proof.
  intros Ha Hl. split; [assumption |].
  destruct (Z.eq_dec a 0) as [-> | Hne]; [lia |].
  change 256 with (2 ^ 8). apply Z.log2_lt_pow2; lia.
Qed.

Lemma lor_lxor_byte (v a b : Z) :
  0 <= v < 256 -> 0 <= a < 256 -> 0 <= b < 256 ->
  0 <= Z.lor v (Z.lxor a b) < 256.
Proof.
  intros Hv Ha Hb.
  assert (0 <= Z.lxor a b) as Hx by (apply Z.lxor_nonneg; lia).
  apply byte_of_log2; [apply Z.lor_nonneg; lia |].
  rewrite Z.log2_lor by lia.
  pose proof (Z.log2_lxor a b ltac:(lia) ltac:(lia)).
  pose proof (log2_byte v Hv). pose proof (log2_byte a Ha). pose proof (log2_byte b Hb).
  lia.
Qed.

Lemma fold_xor_range (x y : bytes) : forall v,
  0 <= v < 256 -> 0 <= fold_xor x y v < 256.
Proof.
  revert y. induction x as [|a x IH]; intros [|b y] v Hv; cbn [fold_xor]; try lia.
  apply IH. apply lor_lxor_byte; [assumption | apply code_range ..].
Qed.

Lemma fold_xor_zero (x y : bytes) : forall v,
  length x = length y -> 0 <= v ->
  fold_xor x y v = 0 <-> v = 0 /\ x = y.
Proof.
  revert y. induction x as [|a x IH]; intros [|b y] v Hl Hv; cbn [fold_xor];
    try discriminate Hl.
  - tauto.
  - injection Hl as Hl.
    pose proof (code_range a) as Ha. pose proof (code_range b) as Hb.
    assert (0 <= Z.lor v (Z.lxor (code a) (code b))) as Hn.
    { apply Z.lor_nonneg. split; [lia |]. apply Z.lxor_nonneg. lia. }
    rewrite (IH y _ Hl Hn).
    rewrite Z.lor_eq_0_iff, Z.lxor_eq_0_iff. split.
    + intros [[-> Hab] ->]. apply code_inj in Hab. now subst.
    + intros [-> [= -> ->]]. auto.
Qed.

Lemma ConstantTimeByteEq_zero (v : Z) :
  0 <= v < 256 -> ConstantTimeByteEq v 0 = 1 <-> v = 0.
Proof.
  intros Hv. unfold ConstantTimeByteEq, uint32.
  rewrite Z.lxor_0_r, Z.shiftr_div_pow2 by lia.
  change (2 ^ 32) with 4294967296. change (2 ^ 31) with 2147483648.
  Z.div_mod_to_equations. lia.
Qed.

(** The comparison answers 1 exactly for equal slices. *)
Lemma ConstantTimeCompare_spec (x y : bytes) :
  ConstantTimeCompare x y = 1 <-> x = y.
Proof.
  unfold ConstantTimeCompare, len. destruct (decide _) as [Hl | Hl].
  - apply Nat2Z.inj in Hl.
    rewrite ConstantTimeByteEq_zero by (apply fold_xor_range; lia).
    rewrite fold_xor_zero by (auto; lia). tauto.
  - split; [discriminate |]. intros ->. done.
Qed.

End Subtle.

Section Generated.

Import strconv fmt.

Lemma alphabet_not (c sep : byte) :
  base64.decodeMap sep = 255 -> in_alphabet c -> c <> sep.
Proof. intros Hsep Hc ->. exact (Hc Hsep). Qed.

Lemma digit_not (c sep : byte) : is_digit sep = false -> is_digit c = true -> c <> sep.
Proof. intros Hsep Hc ->. congruence. Qed.

Lemma not_elem_of_Forall (P : byte -> Prop) (sep : byte) (l : bytes) :
  Forall P l -> (forall c, P c -> c <> sep) -> sep ∉ l.
Proof.
  intros Hl HP Hin. rewrite Forall_forall in Hl.
  exact (HP sep (Hl sep Hin) eq_refl).
Qed.

Lemma EncodeToString_no (sep : byte) (src : bytes) :
  base64.decodeMap sep = 255 -> sep ∉ base64.EncodeToString src.
Proof.
  intros Hsep. eapply not_elem_of_Forall; [apply EncodeToString_alphabet |].
  intros c. now apply alphabet_not.
Qed.

Lemma fmt_d_no (sep : byte) (v : Z) :
  0 <= v < 2 ^ 64 -> is_digit sep = false -> sep ∉ fmt_d v.
Proof.
  intros Hv Hsep. destruct (fmt_d_spec v Hv) as (_ & Hall & _).
  eapply not_elem_of_Forall; [exact Hall |]. intros c. now apply digit_not.
Qed.

Lemma params_string_no_dollar (v m t p : Z) :
  0 <= v < 2 ^ 64 -> 0 <= m < 2 ^ 64 -> 0 <= t < 2 ^ 64 -> 0 <= p < 2 ^ 64 ->
  "$"%byte ∉ params_string v m t p.
Proof.
  intros Hv Hm Ht Hp. unfold params_string.
  rewrite !not_elem_of_app. repeat split;
    first [apply fmt_d_no; [assumption | reflexivity]
          | apply (bool_decide_unpack _); vm_compute; exact I].
Qed.

Lemma Split_params_string (v m t p : Z) :
  0 <= v < 2 ^ 64 -> 0 <= m < 2 ^ 64 -> 0 <= t < 2 ^ 64 -> 0 <= p < 2 ^ 64 ->
  Split (params_string v m t p) ","%byte =
    [go "v=" ++ fmt_d v; go "m=" ++ fmt_d m; go "t=" ++ fmt_d t; go "p=" ++ fmt_d p].
Proof.
  intros Hv Hm Ht Hp. unfold params_string.
  assert (forall (k : string) x, 0 <= x < 2 ^ 64 ->
            ","%byte ∉ go k -> ","%byte ∉ go k ++ fmt_d x) as Hno.
  { intros k x Hx Hk. rewrite not_elem_of_app. split; [exact Hk |].
    apply fmt_d_no; [assumption | reflexivity]. }
  change (go ",m=") with (","%byte :: go "m=").
  change (go ",t=") with (","%byte :: go "t=").
  change (go ",p=") with (","%byte :: go "p=").
  rewrite (app_assoc (go "v=")), <- (app_comm_cons (go "m=")).
  rewrite Split_app by (apply Hno; [assumption | apply (bool_decide_unpack _); vm_compute; exact I]).
  rewrite (app_assoc (go "m=")), <- (app_comm_cons (go "t=")).
  rewrite Split_app by (apply Hno; [assumption | apply (bool_decide_unpack _); vm_compute; exact I]).
  rewrite (app_assoc (go "t=")), <- (app_comm_cons (go "p=")).
  rewrite Split_app by (apply Hno; [assumption | apply (bool_decide_unpack _); vm_compute; exact I]).
  rewrite Split_none by (apply Hno; [assumption | apply (bool_decide_unpack _); vm_compute; exact I]).
  reflexivity.
Qed.

Lemma Sprintf_literal (c : byte) (format : bytes) (a : list arg) :
  c <> "%"%byte -> Sprintf (c :: format) a = c :: Sprintf format a.
Proof. intros Hc. cbn [Sprintf]. destruct (decide (c = "%"%byte)); done. Qed.

Lemma Sprintf_d (n : Z) (format : bytes) (a : list arg) :
  Sprintf ("%"%byte :: "d"%byte :: format) (Int n :: a) = fmt_d n ++ Sprintf format a.
Proof.
  cbn [Sprintf]. destruct (decide ("%"%byte = "%"%byte)); [| done].
  destruct (decide ("d"%byte = "d"%byte)); done.
Qed.

Lemma Sprintf_s (s : bytes) (format : bytes) (a : list arg) :
  Sprintf ("%"%byte :: "s"%byte :: format) (Str s :: a) = s ++ Sprintf format a.
Proof.
  cbn [Sprintf]. destruct (decide ("%"%byte = "%"%byte)); [| done].
  destruct (decide ("s"%byte = "s"%byte)); done.
Qed.

(** The encoded hash of [generateArgon2idHash], field by field. *)
Lemma Sprintf_argon2id (v m t p : Z) (b64Salt b64Hash : bytes) :
  Sprintf (go "$argon2id$v=%d,m=%d,t=%d,p=%d$%s$%s")
    [Int v; Int m; Int t; Int p; Str b64Salt; Str b64Hash] =
  "$"%byte :: go "argon2id" ++ "$"%byte :: params_string v m t p
    ++ "$"%byte :: b64Salt ++ "$"%byte :: b64Hash.
Proof.
  unfold params_string. eval_go.
  repeat first [rewrite Sprintf_literal by discriminate
               | rewrite Sprintf_d | rewrite Sprintf_s].
  cbn [Sprintf]. rewrite app_nil_r.
  repeat (rewrite <- ?app_assoc; cbn [app]). reflexivity.
Qed.

Lemma Sprintf_bcrypt (cost : Z) (b64Hash : bytes) :
  Sprintf (go "$bcrypt$c=%d$%s") [Int cost; Str b64Hash] =
  "$"%byte :: go "bcrypt" ++ "$"%byte :: (go "c=" ++ fmt_d cost) ++ "$"%byte :: b64Hash.
Proof.
  eval_go.
  repeat first [rewrite Sprintf_literal by discriminate
               | rewrite Sprintf_d | rewrite Sprintf_s].
  cbn [Sprintf]. rewrite app_nil_r.
  repeat (rewrite <- ?app_assoc; cbn [app]). reflexivity.
Qed.

End Generated.

Section Registry.

Context (W : World).

Lemma go_argon2id_bcrypt : go "argon2id" <> go "bcrypt".
Proof. discriminate. Qed.

Lemma hashFuncs_lookup (algo : bytes) :
  hashFuncs W !! algo =
    if decide (algo = go "argon2id") then Some (generateArgon2idHash W)
    else if decide (algo = go "bcrypt") then Some (generateBcryptHash W)
    else None.
Proof.
  unfold hashFuncs. destruct (decide (algo = go "argon2id")) as [-> | Ha].
  - apply lookup_insert_eq.
  - rewrite lookup_insert_ne by congruence.
    destruct (decide (algo = go "bcrypt")) as [-> | Hb].
    + apply lookup_singleton_eq.
    + apply lookup_singleton_ne. congruence.
Qed.

Lemma verifyFuncs_lookup (algo : bytes) :
  verifyFuncs W !! algo =
    if decide (algo = go "argon2id") then Some (verifyArgon2idHash W)
    else if decide (algo = go "bcrypt") then Some (verifyBcryptHash W)
    else None.
Proof.
  unfold verifyFuncs. destruct (decide (algo = go "argon2id")) as [-> | Ha].
  - apply lookup_insert_eq.
  - rewrite lookup_insert_ne by congruence.
    destruct (decide (algo = go "bcrypt")) as [-> | Hb].
    + apply lookup_singleton_eq.
    + apply lookup_singleton_ne. congruence.
Qed.

End Registry.

Section Decoders.

Import strconv fmt.

Lemma len_cons {A} (x : A) (l : list A) : len (x :: l) = len l + 1.
Proof. unfold len. cbn [length]. lia. Qed.

Lemma len_nil {A} : len (@nil A) = 0.
Proof. reflexivity. Qed.

(** The decoder on a string of five fields. *)
Lemma decodeArgon2idHash_fields (h f0 f1 ps s k : bytes) (scanned : list Z) :
  Split h "$"%byte = [f0; f1; ps; s; k] ->
  len (Split ps ","%byte) = 4 ->
  Sscanf ps (go "v=%d,m=%d,t=%d,p=%d")
    [Signed 64; Unsigned 32; Unsigned 32; Unsigned 8] = (scanned, None) ->
  nth 0 scanned 0 = argon2.Version ->
  forall salt hash,
  base64.DecodeString s = (salt, None) ->
  base64.DecodeString k = (hash, None) ->
  decodeArgon2idHash h =
    ({| memory := nth 1 scanned 0; iterations := nth 2 scanned 0;
        parallelism := nth 3 scanned 0;
        saltLength := uint32 (len salt); keyLength := uint32 (len hash) |},
     salt, hash, None).
Proof.
  intros Hsplit Hopts Hscan Hver salt hash Hsalt Hhash.
  unfold decodeArgon2idHash. rewrite Hsplit.
  destruct (decide _) as [E | _]; [exfalso; apply E; reflexivity |].
  change ([f0; f1; ps; s; k] !!! 2%nat) with ps.
  change ([f0; f1; ps; s; k] !!! 3%nat) with s.
  change ([f0; f1; ps; s; k] !!! 4%nat) with k.
  destruct (decide _) as [E | _]; [exfalso; apply E; exact Hopts |].
  rewrite Hscan. destruct (decide _) as [E | _]; [exfalso; apply E; exact Hver |].
  rewrite Hsalt, Hhash. reflexivity.
Qed.

Lemma Split_head (s : bytes) (sep : byte) : Split (sep :: s) sep = [] :: Split s sep.
Proof. exact (Split_app [] s sep (not_elem_of_nil sep)). Qed.

Lemma Split_argon2id (v m t p : Z) (b64Salt b64Hash : bytes) :
  0 <= v < 2 ^ 64 -> 0 <= m < 2 ^ 64 -> 0 <= t < 2 ^ 64 -> 0 <= p < 2 ^ 64 ->
  "$"%byte ∉ b64Salt -> "$"%byte ∉ b64Hash ->
  Split ("$"%byte :: go "argon2id" ++ "$"%byte :: params_string v m t p
           ++ "$"%byte :: b64Salt ++ "$"%byte :: b64Hash) "$"%byte =
    [[]; go "argon2id"; params_string v m t p; b64Salt; b64Hash].
Proof.
  intros Hv Hm Ht Hp Hs Hh.
  rewrite Split_head.
  rewrite Split_app by (apply (bool_decide_unpack _); vm_compute; exact I).
  rewrite Split_app by now apply params_string_no_dollar.
  rewrite Split_app by exact Hs.
  now rewrite Split_none by exact Hh.
Qed.

(** The decoder gives back what the encoder was given. *)
Lemma decodeArgon2idHash_Sprintf (m t p : Z) (salt hash : bytes) :
  0 <= m < 2 ^ 32 -> 0 <= t < 2 ^ 32 -> 0 <= p < 2 ^ 8 ->
  decodeArgon2idHash
    (Sprintf (go "$argon2id$v=%d,m=%d,t=%d,p=%d$%s$%s")
       [Int argon2.Version; Int m; Int t; Int p;
        Str (base64.EncodeToString salt); Str (base64.EncodeToString hash)]) =
    ({| memory := m; iterations := t; parallelism := p;
        saltLength := uint32 (len salt); keyLength := uint32 (len hash) |},
     salt, hash, None).
Proof.
  intros Hm Ht Hp.
  assert (0 <= argon2.Version < 2 ^ 63) as Hv by (vm_compute; split; congruence).
  assert (forall n x, 0 <= n <= 64 -> 0 <= x < 2 ^ n -> 0 <= x < 2 ^ 64) as H64.
  { intros n x Hn Hx. split; [lia |]. eapply Z.lt_le_trans; [apply Hx |].
    apply Z.pow_le_mono_r; lia. }
  pose proof (H64 63 _ ltac:(lia) Hv) as Hv'.
  pose proof (H64 32 _ ltac:(lia) Hm) as Hm'.
  pose proof (H64 32 _ ltac:(lia) Ht) as Ht'.
  pose proof (H64 8 _ ltac:(lia) Hp) as Hp'.
  rewrite Sprintf_argon2id.
  etransitivity;
    [eapply decodeArgon2idHash_fields with
       (scanned := [argon2.Version; m; t; p]) (salt := salt) (hash := hash)
    | reflexivity].
  - apply Split_argon2id; try assumption; apply EncodeToString_no; reflexivity.
  - now rewrite Split_params_string.
  - now apply Sscanf_params_string.
  - reflexivity.
  - apply DecodeString_EncodeToString.
  - apply DecodeString_EncodeToString.
Qed.

Lemma Split_bcrypt (cost : Z) (b64Hash : bytes) :
  0 <= cost < 2 ^ 64 -> "$"%byte ∉ b64Hash ->
  Split ("$"%byte :: go "bcrypt" ++ "$"%byte :: (go "c=" ++ fmt_d cost)
           ++ "$"%byte :: b64Hash) "$"%byte =
    [[]; go "bcrypt"; go "c=" ++ fmt_d cost; b64Hash].
Proof.
  intros Hc Hh.
  rewrite Split_head.
  rewrite Split_app by (apply (bool_decide_unpack _); vm_compute; exact I).
  rewrite Split_app.
  - now rewrite Split_none by exact Hh.
  - rewrite not_elem_of_app. split.
    + apply (bool_decide_unpack _); vm_compute; exact I.
    + apply fmt_d_no; [assumption | reflexivity].
Qed.

Lemma decodeBcryptHash_Sprintf (cost : Z) (hash : bytes) :
  0 <= cost < 2 ^ 64 ->
  decodeBcryptHash
    (Sprintf (go "$bcrypt$c=%d$%s") [Int cost; Str (base64.EncodeToString hash)]) =
    (hash, None).
Proof.
  intros Hc. rewrite Sprintf_bcrypt. unfold decodeBcryptHash.
  rewrite Split_bcrypt by (try assumption; apply EncodeToString_no; reflexivity).
  destruct (decide _) as [E | _]; [exfalso; apply E; reflexivity |].
  change ([_; _; _; ?k] !!! 3%nat) with k.
  now rewrite DecodeString_EncodeToString.
Qed.

End Decoders.

Section Generators.

Context (W : World).

Lemma uint32_range (v : Z) : 0 <= uint32 v < 2 ^ 32.
Proof. apply Z.mod_pos_bound. reflexivity. Qed.

Lemma uint8_range (v : Z) : 0 <= uint8 v < 2 ^ 8.
Proof. apply Z.mod_pos_bound. reflexivity. Qed.

Lemma uint32_small (v : Z) : 0 <= v < 2 ^ 32 -> uint32 v = v.
Proof. apply Z.mod_small. Qed.

(** The configuration that is returned holds converted values. *)
Lemma configureArgon2id_inv (params : argon2Params) (err : option error) :
  configureArgon2id W = Ret (params, err) ->
  err = None /\
  0 <= memory params < 2 ^ 32 /\ 0 <= iterations params < 2 ^ 32 /\
  0 <= parallelism params < 2 ^ 8 /\
  0 <= saltLength params < 2 ^ 32 /\ 0 <= keyLength params < 2 ^ 32.
Proof.
  unfold configureArgon2id, mbind, outcome_bind.
  repeat (destruct (config_int W _ _); [| discriminate ..]).
  intros [= <- <-]. cbn [memory iterations parallelism saltLength keyLength].
  repeat split; first [apply uint32_range | apply uint8_range].
Qed.

Lemma configureBcrypt_inv (cost : Z) (err : option error) :
  configureBcrypt W = Ret (cost, err) ->
  err = None /\ bcrypt.MinCost <= cost <= bcrypt.MaxCost.
Proof.
  unfold configureBcrypt.
  destruct (strconv.Atoi _) as [c [e|]]; [discriminate |].
  destruct (Z.ltb_spec c bcrypt.MinCost); [discriminate |].
  destruct (Z.ltb_spec bcrypt.MaxCost c); [discriminate |].
  cbn [orb]. intros [= <- <-]. split; [reflexivity | lia].
Qed.

(** What a hash returned by [generateArgon2idHash] is made of. *)
Lemma generateArgon2idHash_inv (password encodedHash : bytes) :
  generateArgon2idHash W password = Ret (encodedHash, None) ->
  exists params salt hash,
    configureArgon2id W = Ret (params, None) /\
    rand_Read W (saltLength params) = (salt, None) /\
    argon2_IDKey W password salt (iterations params) (memory params)
      (parallelism params) (keyLength params) = Some hash /\
    encodedHash =
      fmt.Sprintf (go "$argon2id$v=%d,m=%d,t=%d,p=%d$%s$%s")
        [fmt.Int argon2.Version; fmt.Int (memory params);
         fmt.Int (iterations params); fmt.Int (parallelism params);
         fmt.Str (base64.EncodeToString salt); fmt.Str (base64.EncodeToString hash)].
Proof.
  unfold generateArgon2idHash, mbind, outcome_bind.
  destruct (configureArgon2id W) as [[params err] | |] eqn:Hc; [| discriminate ..].
  destruct (configureArgon2id_inv _ _ Hc) as [-> _].
  destruct (rand_Read W (saltLength params)) as [salt [e|]] eqn:Hr.
  { discriminate. }
  unfold IDKey.
  destruct (argon2_IDKey W password salt _ _ _ _) as [hash|] eqn:Hk; [| discriminate].
  intros [= <-]. exists params, salt, hash. auto.
Qed.

Lemma generateBcryptHash_inv (password encodedHash : bytes) :
  generateBcryptHash W password = Ret (encodedHash, None) ->
  exists cost hash,
    configureBcrypt W = Ret (cost, None) /\
    bcrypt_GenerateFromPassword W password cost = (hash, None) /\
    encodedHash =
      fmt.Sprintf (go "$bcrypt$c=%d$%s") [fmt.Int cost; fmt.Str (base64.EncodeToString hash)].
Proof.
  unfold generateBcryptHash, mbind, outcome_bind.
  destruct (configureBcrypt W) as [[cost err] | |] eqn:Hc; [| discriminate ..].
  destruct (configureBcrypt_inv _ _ Hc) as [-> _].
  destruct (bcrypt_GenerateFromPassword W password cost) as [hash [e|]] eqn:Hg.
  { discriminate. }
  intros [= <-]. exists cost, hash. auto.
Qed.

(** [GenerateHash] returns through one of the two generators. *)
Lemma GenerateHash_inv (algo password : bytes) (r : bytes * option error) :
  GenerateHash W algo password = Ret r ->
  (algo = go "argon2id" /\ generateArgon2idHash W password = Ret r) \/
  (algo = go "bcrypt" /\ generateBcryptHash W password = Ret r).
Proof.
  unfold GenerateHash. rewrite hashFuncs_lookup.
  destruct (decide (algo = go "argon2id")); [auto |].
  destruct (decide (algo = go "bcrypt")); [auto | discriminate].
Qed.

(** [VerifyPassword] on a string of more than two fields goes by the
    second of them. *)
Lemma VerifyPassword_fields (password h f0 f1 f2 : bytes) (fs : list bytes) :
  Split h "$"%byte = f0 :: f1 :: f2 :: fs ->
  VerifyPassword W password h =
    match verifyFuncs W !! f1 with
    | None => Fatal (unsupported f1)
    | Some verifyFunc => verifyFunc password h
    end.
Proof.
  intros Hs. unfold VerifyPassword. rewrite Hs.
  destruct (decide _) as [_ | E]; [reflexivity |].
  exfalso. apply E. rewrite !len_cons. unfold len. lia.
Qed.

Lemma Split_Sprintf_argon2id (m t p : Z) (salt hash : bytes) :
  0 <= m < 2 ^ 32 -> 0 <= t < 2 ^ 32 -> 0 <= p < 2 ^ 8 ->
  Split (fmt.Sprintf (go "$argon2id$v=%d,m=%d,t=%d,p=%d$%s$%s")
           [fmt.Int argon2.Version; fmt.Int m; fmt.Int t; fmt.Int p;
            fmt.Str (base64.EncodeToString salt);
            fmt.Str (base64.EncodeToString hash)]) "$"%byte =
    [[]; go "argon2id"; params_string argon2.Version m t p;
     base64.EncodeToString salt; base64.EncodeToString hash].
Proof.
  intros Hm Ht Hp. rewrite Sprintf_argon2id.
  assert (forall n x, 0 <= n <= 64 -> 0 <= x < 2 ^ n -> 0 <= x < 2 ^ 64) as H64.
  { intros n x Hn Hx. split; [lia |]. eapply Z.lt_le_trans; [apply Hx |].
    apply Z.pow_le_mono_r; lia. }
  apply Split_argon2id.
  - vm_compute. split; congruence.
  - apply (H64 32); [lia | exact Hm].
  - apply (H64 32); [lia | exact Ht].
  - apply (H64 8); [lia | exact Hp].
  - apply EncodeToString_no. reflexivity.
  - apply EncodeToString_no. reflexivity.
Qed.

Lemma Split_Sprintf_bcrypt (cost : Z) (hash : bytes) :
  0 <= cost < 2 ^ 64 ->
  Split (fmt.Sprintf (go "$bcrypt$c=%d$%s")
           [fmt.Int cost; fmt.Str (base64.EncodeToString hash)]) "$"%byte =
    [[]; go "bcrypt"; go "c=" ++ fmt.fmt_d cost; base64.EncodeToString hash].
Proof.
  intros Hc. rewrite Sprintf_bcrypt. apply Split_bcrypt; [assumption |].
  apply EncodeToString_no. reflexivity.
Qed.

End Generators.

Section Verification.

Context (W : World) (HW : primitives_sound W).

(** Verification of a hash of [generateArgon2idHash], for any password. *)
Lemma verify_generated_argon2id (password password' encodedHash : bytes) :
  generateArgon2idHash W password = Ret (encodedHash, None) ->
  exists params salt hash,
    argon2_IDKey W password salt (iterations params) (memory params)
      (parallelism params) (keyLength params) = Some hash /\
    VerifyPassword W password' encodedHash =
      match argon2_IDKey W password' salt (iterations params) (memory params)
              (parallelism params) (keyLength params) with
      | Some verification =>
          if decide (hash = verification) then Ret (true, None)
          else Ret (false, Some (errors_New (go "invalid password")))
      | None => Panic
      end.
Proof.
  intros Hg. apply generateArgon2idHash_inv in Hg
    as (params & salt & hash & Hc & Hr & Hk & ->).
  destruct (configureArgon2id_inv W _ _ Hc) as (_ & Hm & Ht & Hp & Hs & Hl).
  exists params, salt, hash. split; [exact Hk |].
  rewrite (VerifyPassword_fields W _ _ _ _ _ _ (Split_Sprintf_argon2id _ _ _ _ _ Hm Ht Hp)).
  rewrite verifyFuncs_lookup. destruct (decide _) as [_ | E]; [| done].
  unfold verifyArgon2idHash.
  rewrite decodeArgon2idHash_Sprintf by assumption.
  cbn [memory iterations parallelism saltLength keyLength].
  rewrite (IDKey_length W HW _ _ _ _ _ _ _ Hk), uint32_small by exact Hl.
  unfold IDKey, mbind, outcome_bind.
  destruct (argon2_IDKey W password' _ _ _ _ _) as [verification|]; [| reflexivity].
  destruct (decide (hash = verification)) as [<- | Hne];
    destruct (decide _) as [Hc1 | Hc1]; try reflexivity.
  - exfalso. apply Hc1. now apply ConstantTimeCompare_spec.
  - exfalso. apply Hne. now apply ConstantTimeCompare_spec.
Qed.

Lemma verify_generated_bcrypt (password password' encodedHash : bytes) :
  generateBcryptHash W password = Ret (encodedHash, None) ->
  exists cost hash,
    bcrypt_GenerateFromPassword W password cost = (hash, None) /\
    VerifyPassword W password' encodedHash =
      match bcrypt_CompareHashAndPassword W hash password' with
      | Some err => Ret (false, Some err)
      | None => Ret (true, None)
      end.
Proof.
  intros Hg. apply generateBcryptHash_inv in Hg as (cost & hash & Hc & Hgen & ->).
  destruct (configureBcrypt_inv W _ _ Hc) as (_ & Hcost).
  assert (0 <= cost < 2 ^ 64) as Hc64.
  { unfold bcrypt.MinCost, bcrypt.MaxCost in Hcost.
    change (2 ^ 64) with 18446744073709551616. lia. }
  exists cost, hash. split; [exact Hgen |].
  rewrite (VerifyPassword_fields W _ _ _ _ _ _ (Split_Sprintf_bcrypt _ _ Hc64)).
  rewrite verifyFuncs_lookup. destruct (decide _) as [E | _]; [discriminate E |].
  destruct (decide _) as [_ | E]; [| done].
  unfold verifyBcryptHash. now rewrite decodeBcryptHash_Sprintf by exact Hc64.
Qed.

End Verification.

Section GrammarFacts.

Import Grammar.

Lemma is_base64_char_alphabet (c : byte) : in_alphabet c -> is_base64_char c = true.
Proof.
  unfold in_alphabet. intros Hc.
  destruct c; first [reflexivity | exfalso; apply Hc; reflexivity].
Qed.

Lemma length_EncodeToString (src : bytes) :
  (length (base64.EncodeToString src) mod 4 <> 1)%nat.
Proof.
  induction src as [src IH] using (induction_ltof1 _ (@length byte)).
  unfold ltof in IH.
  destruct src as [|a [|b [|c rest]]]; cbn [base64.EncodeToString length];
    try (cbn; lia).
  specialize (IH rest ltac:(simpl; lia)).
  replace (S (S (S (S (length (base64.EncodeToString rest))))))
    with (length (base64.EncodeToString rest) + 1 * 4)%nat by lia.
  now rewrite Nat.Div0.mod_add.
Qed.

Lemma is_raw_base64_EncodeToString (src : bytes) :
  is_raw_base64 (base64.EncodeToString src) = true.
Proof.
  unfold is_raw_base64. apply andb_true_intro. split.
  - apply forallb_forall. intros c Hc.
    apply is_base64_char_alphabet.
    pose proof (EncodeToString_alphabet src) as Hall.
    rewrite Forall_forall in Hall. apply Hall. now apply list_elem_of_In.
  - apply negb_true_iff, Nat.eqb_neq, length_EncodeToString.
Qed.

Lemma strip_prefix_app (prefix s : bytes) : strip_prefix prefix (prefix ++ s) = Some s.
Proof.
  induction prefix as [|p prefix IH]; [reflexivity |].
  cbn [app strip_prefix]. destruct (decide (p = p)); done.
Qed.

Lemma parameter_app (key : string) (value : bytes -> bool) (v : bytes) :
  parameter key value (go key ++ v) = value v.
Proof. unfold parameter. now rewrite strip_prefix_app. Qed.

Lemma is_decimal_fmt_d (v : Z) : 0 <= v < 2 ^ 64 -> is_decimal (fmt.fmt_d v) = true.
Proof.
  intros Hv. destruct (fmt_d_spec v Hv) as (Hne & Hall & _).
  unfold is_decimal. destruct (fmt.fmt_d v) as [|c ds]; [done |].
  apply forallb_forall. intros x Hx. rewrite Forall_forall in Hall.
  apply Hall. now apply list_elem_of_In.
Qed.

Lemma argon2id_params_string (m t p : Z) :
  0 <= m < 2 ^ 64 -> 0 <= t < 2 ^ 64 -> 0 <= p < 2 ^ 64 ->
  argon2id_params (params_string argon2.Version m t p) = true.
Proof.
  intros Hm Ht Hp. unfold argon2id_params.
  rewrite Split_params_string by (try assumption; vm_compute; split; congruence).
  rewrite !parameter_app, !is_decimal_fmt_d by assumption.
  reflexivity.
Qed.

End GrammarFacts.

Section Claims.

Context (W : World).

(** C1. For every supported algorithm and every password, verifying the
    password against the encoded hash that [GenerateHash] returned for it
    answers [true] without error: the verifier derives the hash again from
    the decoded parameters and salt as the encoder derived it. *)
Theorem verify_accepts_generated_hash (algo password encodedHash : bytes) :
  primitives_sound W ->
  GenerateHash W algo password = Ret (encodedHash, None) ->
  VerifyPassword W password encodedHash = Ret (true, None).
Proof.
  intros HW Hg. apply GenerateHash_inv in Hg as [[_ Hg] | [_ Hg]].
  - destruct (verify_generated_argon2id W HW password password encodedHash Hg)
      as (params & salt & hash & Hk & ->).
    rewrite Hk. destruct (decide (hash = hash)); done.
  - destruct (verify_generated_bcrypt W password password encodedHash Hg)
      as (cost & hash & Hgen & ->).
    now rewrite (bcrypt_complete W HW _ _ _ Hgen).
Qed.


(** C5, as amended. An Argon2id hash of five fields whose parameters scan
    and whose version is not the supported one is refused by the decoder
    with the error "incompatible Argon2 version"; the verifier hands that
    error to [log.Fatal], so the process ends and neither a match nor a
    mismatch is returned. *)
Theorem unsupported_version_is_fatal
    (password h f0 ps s k : bytes) (scanned : list Z) :
  Split h "$"%byte = [f0; go "argon2id"; ps; s; k] ->
  len (Split ps ","%byte) = 4 ->
  fmt.Sscanf ps (go "v=%d,m=%d,t=%d,p=%d")
    [fmt.Signed 64; fmt.Unsigned 32; fmt.Unsigned 32; fmt.Unsigned 8]
    = (scanned, None) ->
  nth 0 scanned 0 <> argon2.Version ->
  decodeArgon2idHash h =
    (argon2Params_zero, [], [], Some (errors_New (go "incompatible Argon2 version")))
  /\ VerifyPassword W password h =
       Fatal (Fatal_err (errors_New (go "incompatible Argon2 version"))).
Proof.
  intros Hsplit Hopts Hscan Hver.
  assert (decodeArgon2idHash h =
    (argon2Params_zero, [], [], Some (errors_New (go "incompatible Argon2 version"))))
    as Hd.
  { unfold decodeArgon2idHash. rewrite Hsplit.
    destruct (decide _) as [E | _]; [exfalso; apply E; reflexivity |].
    change ([f0; go "argon2id"; ps; s; k] !!! 2%nat) with ps.
    destruct (decide _) as [E | _]; [exfalso; apply E; exact Hopts |].
    rewrite Hscan. destruct (decide _) as [_ | E]; [reflexivity | done]. }
  split; [exact Hd |].
  rewrite (VerifyPassword_fields W _ _ _ _ _ _ Hsplit), verifyFuncs_lookup.
  destruct (decide _) as [_ | E]; [| done].
  unfold verifyArgon2idHash. now rewrite Hd.
Qed.

(** C6. For an encoded hash of two fields or fewer, [VerifyPassword]
    returns [false] and no error, whatever the registered routines are. *)
Theorem VerifyPassword_short (password encodedHash : bytes) :
  len (Split encodedHash "$"%byte) <= 2 ->
  VerifyPassword W password encodedHash = Ret (false, None).
Proof.
  intros Hl. unfold VerifyPassword. destruct (decide _) as [Hgt | _]; [lia | reflexivity].
Qed.

(** C7. An encoded hash that [GenerateHash] returns is in the grammar of
    the specification: for "argon2id" the fields are the configured
    version, memory, iterations and parallelism and the unpadded base64 of
    salt and hash; for "bcrypt" they are the cost and the unpadded base64
    of the hash, without a field for the salt. *)
Theorem GenerateHash_grammar (algo password encodedHash : bytes) :
  GenerateHash W algo password = Ret (encodedHash, None) ->
  (algo = go "argon2id" /\ Grammar.argon2id encodedHash = true /\
   exists params salt hash,
     configureArgon2id W = Ret (params, None) /\
     encodedHash =
       go "$argon2id$" ++
       params_string argon2.Version (memory params) (iterations params)
         (parallelism params) ++
       go "$" ++ base64.EncodeToString salt ++
       go "$" ++ base64.EncodeToString hash)
  \/
  (algo = go "bcrypt" /\ Grammar.bcrypt encodedHash = true /\
   exists cost hash,
     configureBcrypt W = Ret (cost, None) /\
     encodedHash =
       go "$bcrypt$" ++ go "c=" ++ fmt.fmt_d cost ++
       go "$" ++ base64.EncodeToString hash).
Proof.
  assert (forall n x, 0 <= n <= 64 -> 0 <= x < 2 ^ n -> 0 <= x < 2 ^ 64) as H64.
  { intros n x Hn Hx. split; [lia |]. eapply Z.lt_le_trans; [apply Hx |].
    apply Z.pow_le_mono_r; lia. }
  intros Hg. apply GenerateHash_inv in Hg as [[-> Hg] | [-> Hg]]; [left | right].
  - apply generateArgon2idHash_inv in Hg as (params & salt & hash & Hc & Hr & Hk & ->).
    destruct (configureArgon2id_inv W _ _ Hc) as (_ & Hm & Ht & Hp & _).
    split; [reflexivity |]. split.
    + unfold Grammar.argon2id.
      rewrite Split_Sprintf_argon2id by assumption.
      rewrite argon2id_params_string, !is_raw_base64_EncodeToString
        by (eapply H64; [| eassumption]; lia).
      reflexivity.
    + exists params, salt, hash. split; [exact Hc |].
      rewrite Sprintf_argon2id. reflexivity.
  - apply generateBcryptHash_inv in Hg as (cost & hash & Hc & Hgen & ->).
    destruct (configureBcrypt_inv W _ _ Hc) as (_ & Hcost).
    assert (0 <= cost < 2 ^ 64) as Hc64.
    { unfold bcrypt.MinCost, bcrypt.MaxCost in Hcost.
      change (2 ^ 64) with 18446744073709551616. lia. }
    split; [reflexivity |]. split.
    + unfold Grammar.bcrypt. rewrite Split_Sprintf_bcrypt by assumption.
      rewrite parameter_app, is_decimal_fmt_d, is_raw_base64_EncodeToString
        by assumption.
      reflexivity.
    + exists cost, hash. split; [exact Hc |].
      rewrite Sprintf_bcrypt. rewrite <- !app_assoc. reflexivity.
Qed.

(** C8, as amended. For an algorithm that is in neither registry,
    [GenerateHash] ends the process through [log.Fatalf] with "Algorithm
    %s is not supported."; so does [VerifyPassword] on an encoded hash of
    more than two fields whose second field is that algorithm. No error is
    returned to the caller. *)
Theorem unsupported_algorithm_is_fatal (algo password : bytes) :
  hashFuncs W !! algo = None ->
  verifyFuncs W !! algo = None ->
  GenerateHash W algo password = Fatal (unsupported algo) /\
  forall h f0 f2 fs,
    Split h "$"%byte = f0 :: algo :: f2 :: fs ->
    VerifyPassword W password h = Fatal (unsupported algo).
Proof.
  intros Hh Hv. split.
  - unfold GenerateHash. now rewrite Hh.
  - intros h f0 f2 fs Hs. rewrite (VerifyPassword_fields W _ _ _ _ _ _ Hs).
    now rewrite Hv.
Qed.

(** C10. When [VerifyPassword] returns a match, the error it returns with
    it is [nil], on the Argon2id path and on the bcrypt path. *)
Theorem match_has_no_error (password encodedHash : bytes) (err : option error) :
  VerifyPassword W password encodedHash = Ret (true, err) -> err = None.
Proof.
  unfold VerifyPassword. destruct (decide _) as [_ | _]; [| discriminate].
  rewrite verifyFuncs_lookup.
  destruct (decide _) as [_ | _]; [| destruct (decide _) as [_ | _]; [| discriminate]].
  - unfold verifyArgon2idHash.
    destruct (decodeArgon2idHash encodedHash) as [[[params salt] hash] [e|]];
      [discriminate |].
    unfold IDKey, mbind, outcome_bind.
    destruct (argon2_IDKey W _ _ _ _ _ _); [| discriminate].
    destruct (decide _); congruence.
  - unfold verifyBcryptHash. destruct (decodeBcryptHash encodedHash) as [hash _].
    destruct (bcrypt_CompareHashAndPassword W hash password); congruence.
Qed.

End Claims.

Section DecoderClaims.

(** C4, at the input where the code departs from it: on a bcrypt string of
    three fields the decoder returns the empty hash and the error [nil]. *)
Theorem decodeBcryptHash_wrong_field_count :
  len (Split (go "$bcrypt$c=4") "$"%byte) = 3 /\
  decodeBcryptHash (go "$bcrypt$c=4") = ([], None).
Proof. split; reflexivity. Qed.

(** The Argon2id decoder refuses a string that has not five fields. *)
Lemma decodeArgon2idHash_field_count (encodedHash : bytes) :
  len (Split encodedHash "$"%byte) <> 5 ->
  decodeArgon2idHash encodedHash =
    (argon2Params_zero, [], [], Some (errors_New (go "invalid encoding on hash"))).
Proof.
  intros Hl. unfold decodeArgon2idHash. destruct (decide _) as [_ | E]; done.
Qed.

(** The bcrypt decoder returns no error for a string that has not four
    fields. *)
Lemma decodeBcryptHash_field_count (encodedHash : bytes) :
  len (Split encodedHash "$"%byte) <> 4 ->
  decodeBcryptHash encodedHash = ([], None).
Proof.
  intros Hl. unfold decodeBcryptHash. destruct (decide _) as [_ | E]; done.
Qed.


End DecoderClaims.

Section SampleWorld.

Lemma Sample_sound : primitives_sound Sample.world.
Proof.
  constructor; cbn [argon2_IDKey bcrypt_GenerateFromPassword
                      bcrypt_CompareHashAndPassword Sample.world].
  - intros password salt time memory threads keyLen key. unfold Sample.idkey.
    destruct (Z.ltb_spec time 1); [discriminate |].
    destruct (Z.ltb_spec threads 1); [discriminate |].
    destruct (Z.ltb_spec keyLen 1); [discriminate |].
    cbn [orb]. intros [= <-]. unfold len, Sample.stretch.
    rewrite length_map, length_seq. lia.
  - intros password password' salt time memory threads keyLen. unfold Sample.idkey.
    destruct ((time <? 1) || (threads <? 1) || (keyLen <? 1)); [reflexivity | discriminate].
  - intros password cost hash. unfold Sample.generate, Sample.compare.
    destruct (72 <? len password); [discriminate |].
    intros [= <-]. destruct (decide (password = password)); done.
Qed.

Lemma verify_accepts_generated_hash_witness :
  (GenerateHash Sample.world (go "argon2id") password123 = Ret (sample_argon2id, None) /\
   VerifyPassword Sample.world password123 sample_argon2id = Ret (true, None)) /\
  (GenerateHash Sample.world (go "bcrypt") password123 = Ret (sample_bcrypt, None) /\
   VerifyPassword Sample.world password123 sample_bcrypt = Ret (true, None)).
Proof.
  split; (split; [vm_compute; reflexivity |]).
  - apply (verify_accepts_generated_hash Sample.world (go "argon2id"));
      [exact Sample_sound | vm_compute; reflexivity].
  - apply (verify_accepts_generated_hash Sample.world (go "bcrypt"));
      [exact Sample_sound | vm_compute; reflexivity].
Defined.



Lemma unsupported_version_is_fatal_witness :
  decodeArgon2idHash test_argon2id_v16 =
    (argon2Params_zero, [], [], Some (errors_New (go "incompatible Argon2 version")))
  /\ VerifyPassword Sample.world password123 test_argon2id_v16 =
       Fatal (Fatal_err (errors_New (go "incompatible Argon2 version"))).
Proof.
  apply (unsupported_version_is_fatal Sample.world password123 test_argon2id_v16 []
           (go "v=16,m=65536,t=6,p=2") (go "gQc4ZccIqosKqCMKYUgP8A")
           (go "x/xg/7uiPsBrRd11wC0mtiM2fjeqHzqTcjs2fLMsiGw") [16; 65536; 6; 2]);
    [vm_compute; reflexivity .. | vm_compute; discriminate].
Defined.

(** Against C5 as stated: the verifier returns nothing to its caller. *)
Lemma unsupported_version_not_returned :
  VerifyPassword Sample.world password123 test_argon2id_v16 =
    Fatal (Fatal_err (errors_New (go "incompatible Argon2 version"))) /\
  forall r, VerifyPassword Sample.world password123 test_argon2id_v16 <> Ret r.
Proof.
  assert (VerifyPassword Sample.world password123 test_argon2id_v16 =
    Fatal (Fatal_err (errors_New (go "incompatible Argon2 version")))) as H
    by (vm_compute; reflexivity).
  split; [exact H |]. intros r. rewrite H. discriminate.
Qed.

Lemma VerifyPassword_short_witness :
  len (Split (go "not-a-valid-hash") "$"%byte) <= 2 /\
  VerifyPassword Sample.world password123 (go "not-a-valid-hash") = Ret (false, None).
Proof.
  split; [vm_compute; discriminate |].
  apply (VerifyPassword_short Sample.world). vm_compute. discriminate.
Defined.

Lemma GenerateHash_grammar_witness :
  GenerateHash Sample.world (go "bcrypt") password123 = Ret (sample_bcrypt, None) /\
  Grammar.bcrypt sample_bcrypt = true /\
  GenerateHash Sample.world (go "argon2id") password123 = Ret (sample_argon2id, None) /\
  Grammar.argon2id sample_argon2id = true.
Proof.
  split; [vm_compute; reflexivity |]. split.
  - destruct (GenerateHash_grammar Sample.world (go "bcrypt") password123 sample_bcrypt)
      as [[E _] | (_ & H & _)]; [vm_compute; reflexivity | discriminate E | exact H].
  - split; [vm_compute; reflexivity |].
    destruct (GenerateHash_grammar Sample.world (go "argon2id") password123 sample_argon2id)
      as [(_ & H & _) | [E _]]; [vm_compute; reflexivity | exact H | discriminate E].
Defined.

Lemma unsupported_algorithm_is_fatal_witness :
  hashFuncs Sample.world !! go "scrypt" = None /\
  verifyFuncs Sample.world !! go "scrypt" = None /\
  GenerateHash Sample.world (go "scrypt") password123 = Fatal (unsupported (go "scrypt")) /\
  VerifyPassword Sample.world password123 (go "$scrypt$n=16$c2FsdA$aGFzaA") =
    Fatal (unsupported (go "scrypt")).
Proof.
  assert (hashFuncs Sample.world !! go "scrypt" = None) as Hh
    by (rewrite hashFuncs_lookup; reflexivity).
  assert (verifyFuncs Sample.world !! go "scrypt" = None) as Hv
    by (rewrite verifyFuncs_lookup; reflexivity).
  destruct (unsupported_algorithm_is_fatal Sample.world (go "scrypt") password123 Hh Hv)
    as [Hg Hp].
  split; [exact Hh |]. split; [exact Hv |]. split; [exact Hg |].
  eapply Hp. vm_compute. reflexivity.
Defined.

(** Against C8 as stated: no error value reaches the caller. *)
Lemma unsupported_algorithm_no_error :
  hashFuncs Sample.world !! go "scrypt" = None /\
  GenerateHash Sample.world (go "scrypt") password123 = Fatal (unsupported (go "scrypt")) /\
  VerifyPassword Sample.world password123 (go "$scrypt$n=16$c2FsdA$aGFzaA") =
    Fatal (unsupported (go "scrypt")) /\
  VerifyPassword Sample.world password123 (go "$scrypt") = Ret (false, None).
Proof.
  split; [rewrite hashFuncs_lookup; reflexivity |].
  split; [vm_compute; reflexivity |]. split; vm_compute; reflexivity.
Qed.


Lemma match_has_no_error_witness :
  VerifyPassword Sample.world password123 sample_bcrypt = Ret (true, None) /\
  (None : option error) = None.
Proof.
  split; [vm_compute; reflexivity |].
  apply (match_has_no_error Sample.world password123 sample_bcrypt).
  vm_compute. reflexivity.
Defined.

End SampleWorld.

Section Scenarios.

Example base64_encode_foob : base64.EncodeToString (go "foob") = go "Zm9vYg".
Proof. reflexivity. Qed.

Example base64_decode_foob : base64.DecodeString (go "Zm9vYg") = (go "foob", None).
Proof. reflexivity. Qed.

Example base64_decode_trailing_bits :
  base64.DecodeString (go "Zm9vYh") = (go "foo", Some (CorruptInputError 4)).
Proof. reflexivity. Qed.

Example base64_decode_padding :
  base64.DecodeString (go "Zm8=") = ([], Some (CorruptInputError 3)).
Proof. reflexivity. Qed.

Example Split_fields :
  Split (go "$bcrypt$c=4$JDJh") "$"%byte = [[]; go "bcrypt"; go "c=4"; go "JDJh"].
Proof. reflexivity. Qed.

Example Sscanf_spaces :
  fmt.Sscanf (go "v= 19,m=65536,t=6,p=2 and more") (go "v=%d,m=%d,t=%d,p=%d")
    [fmt.Signed 64; fmt.Unsigned 32; fmt.Unsigned 32; fmt.Unsigned 8]
  = ([19; 65536; 6; 2], None).
Proof. vm_compute. reflexivity. Qed.

Example Sscanf_overflow :
  fmt.Sscanf (go "v=19,m=65536,t=6,p=256") (go "v=%d,m=%d,t=%d,p=%d")
    [fmt.Signed 64; fmt.Unsigned 32; fmt.Unsigned 32; fmt.Unsigned 8]
  = ([19; 65536; 6],
     Some (scanError (go "unsigned integer overflow on token 256"))).
Proof. vm_compute. reflexivity. Qed.

(** The hash of the module's tests decodes to its parameters. *)
Example decode_test_hash :
  exists salt hash,
    decodeArgon2idHash test_argon2id =
      ({| memory := 65536; iterations := 6; parallelism := 2;
          saltLength := 16; keyLength := 32 |}, salt, hash, None).
Proof. eexists _, _. vm_compute. reflexivity. Qed.

Example decode_not_a_hash :
  decodeArgon2idHash (go "not-a-valid-hash") =
    (argon2Params_zero, [], [], Some (errors_New (go "invalid encoding on hash"))).
Proof. vm_compute. reflexivity. Qed.

End Scenarios.

(** * Further properties of the module *)

Section DecoderFacts.

Lemma rand_Read_length (W : World) (n : Z) (salt : bytes) :
  rand_Read W n = (salt, None) -> 0 <= n -> len salt = n.
Proof.
  unfold rand_Read. destruct (rand_fails W); [discriminate |].
  intros [= <-] Hn. unfold len. rewrite length_map, length_seq. lia.
Qed.

Lemma decodeArgon2idHash_success_fields (h : bytes) (params : argon2Params)
    (salt hash : bytes) :
  decodeArgon2idHash h = (params, salt, hash, None) -> len (Split h "$"%byte) = 5.
Proof.
  unfold decodeArgon2idHash. destruct (decide _) as [_ | Hl]; [discriminate |].
  intros _. destruct (decide (len (Split h "$"%byte) = 5)); [assumption | done].
Qed.

Lemma VerifyPassword_dispatch (W : World) (password h algo : bytes) :
  len (Split h "$"%byte) > 2 ->
  Split h "$"%byte !!! 1%nat = algo ->
  VerifyPassword W password h =
    match verifyFuncs W !! algo with
    | None => Fatal (unsupported algo)
    | Some verifyFunc => verifyFunc password h
    end.
Proof.
  intros Hl <-. unfold VerifyPassword. destruct (decide _); [reflexivity | done].
Qed.

(** The decoders look at the fields after the first only. *)
Lemma decodeArgon2idHash_first_field (h h' f0 g0 : bytes) (fs : list bytes) :
  Split h "$"%byte = f0 :: fs -> Split h' "$"%byte = g0 :: fs ->
  decodeArgon2idHash h = decodeArgon2idHash h'.
Proof. intros H1 H2. unfold decodeArgon2idHash. rewrite H1, H2. reflexivity. Qed.

Lemma decodeBcryptHash_first_field (h h' f0 g0 : bytes) (fs : list bytes) :
  Split h "$"%byte = f0 :: fs -> Split h' "$"%byte = g0 :: fs ->
  decodeBcryptHash h = decodeBcryptHash h'.
Proof. intros H1 H2. unfold decodeBcryptHash. rewrite H1, H2. reflexivity. Qed.

End DecoderFacts.

Section RoundTrips.

Context (W : World).

(** X1. The Argon2id decoder gives back what the generator encoded: the
    configured parameters, among them the salt length and the key length,
    and the salt and the hash. *)
Theorem generated_argon2id_decodes (password encodedHash : bytes) :
  primitives_sound W ->
  GenerateHash W (go "argon2id") password = Ret (encodedHash, None) ->
  exists params salt hash,
    configureArgon2id W = Ret (params, None) /\
    rand_Read W (saltLength params) = (salt, None) /\
    argon2_IDKey W password salt (iterations params) (memory params)
      (parallelism params) (keyLength params) = Some hash /\
    decodeArgon2idHash encodedHash = (params, salt, hash, None).
Proof.
  intros HW Hg. apply GenerateHash_inv in Hg as [[_ Hg] | [E _]]; [| discriminate E].
  apply generateArgon2idHash_inv in Hg as (params & salt & hash & Hc & Hr & Hk & ->).
  destruct (configureArgon2id_inv W _ _ Hc) as (_ & Hm & Ht & Hp & Hs & Hl).
  exists params, salt, hash. repeat (split; [assumption |]).
  rewrite decodeArgon2idHash_Sprintf by assumption.
  rewrite (IDKey_length W HW _ _ _ _ _ _ _ Hk).
  rewrite (rand_Read_length W _ _ Hr) by lia.
  rewrite !uint32_small by assumption. destruct params; reflexivity.
Qed.

(** X2. The bcrypt decoder gives back the hash that the generator got from
    [bcrypt.GenerateFromPassword] for the configured cost. *)
Theorem generated_bcrypt_decodes (password encodedHash : bytes) :
  GenerateHash W (go "bcrypt") password = Ret (encodedHash, None) ->
  exists cost hash,
    configureBcrypt W = Ret (cost, None) /\
    bcrypt_GenerateFromPassword W password cost = (hash, None) /\
    decodeBcryptHash encodedHash = (hash, None).
Proof.
  intros Hg. apply GenerateHash_inv in Hg as [[E _] | [_ Hg]]; [discriminate E |].
  apply generateBcryptHash_inv in Hg as (cost & hash & Hc & Hgen & ->).
  destruct (configureBcrypt_inv W _ _ Hc) as (_ & Hcost).
  exists cost, hash. repeat (split; [assumption |]).
  apply decodeBcryptHash_Sprintf.
  unfold bcrypt.MinCost, bcrypt.MaxCost in Hcost.
  change (2 ^ 64) with 18446744073709551616. lia.
Qed.

(** X3. For an Argon2id string that decodes, [VerifyPassword] answers
    [true] exactly when the key derived from the password with the decoded
    salt and parameters is the decoded hash, byte for byte; otherwise it
    answers [false] with the error "invalid password". *)
Theorem argon2id_match_iff_same_key
    (password h : bytes) (params : argon2Params) (salt hash key : bytes) :
  Split h "$"%byte !!! 1%nat = go "argon2id" ->
  decodeArgon2idHash h = (params, salt, hash, None) ->
  argon2_IDKey W password salt (iterations params) (memory params)
    (parallelism params) (keyLength params) = Some key ->
  VerifyPassword W password h =
    if decide (key = hash) then Ret (true, None)
    else Ret (false, Some (errors_New (go "invalid password"))).
Proof.
  intros Htag Hd Hk.
  rewrite (VerifyPassword_dispatch W password h (go "argon2id")); [| | exact Htag].
  2: { rewrite (decodeArgon2idHash_success_fields _ _ _ _ Hd). lia. }
  rewrite verifyFuncs_lookup. destruct (decide _) as [_ | E]; [| done].
  unfold verifyArgon2idHash. rewrite Hd. unfold IDKey. rewrite Hk.
  unfold mbind, outcome_bind.
  destruct (decide (key = hash)) as [-> | Hne];
    destruct (decide _) as [Hc | Hc]; try reflexivity.
  - exfalso. apply Hc. now apply ConstantTimeCompare_spec.
  - exfalso. apply Hne. symmetry. now apply ConstantTimeCompare_spec.
Qed.

(** X4. [VerifyPassword] returns [false] without error only for a string of
    two fields or fewer: on every other string it returns a match, an
    error, or does not return. *)
Theorem false_without_error_iff_short (password h : bytes) :
  VerifyPassword W password h = Ret (false, None) <-> len (Split h "$"%byte) <= 2.
Proof.
  unfold VerifyPassword. destruct (decide _) as [Hgt | Hle]; [| split; [lia | reflexivity]].
  split; [| lia]. rewrite verifyFuncs_lookup.
  destruct (decide _) as [_ | _]; [| destruct (decide _) as [_ | _]; [| discriminate]].
  - unfold verifyArgon2idHash.
    destruct (decodeArgon2idHash h) as [[[params salt] hash] [e|]]; [discriminate |].
    unfold IDKey, mbind, outcome_bind.
    destruct (argon2_IDKey W _ _ _ _ _ _); [| discriminate].
    destruct (decide _); discriminate.
  - unfold verifyBcryptHash. destruct (decodeBcryptHash h) as [hash _].
    destruct (bcrypt_CompareHashAndPassword W hash password); discriminate.
Qed.

(** X5. [GenerateHash] returns an error only on the Argon2id path and only
    when the random source fails; the hash it returns then is empty. On the
    bcrypt path every failure ends the process. *)
Theorem GenerateHash_error_is_entropy (algo password h : bytes) (err : error) :
  GenerateHash W algo password = Ret (h, Some err) ->
  algo = go "argon2id" /\ rand_fails W = true /\ h = [] /\ err = rand_error.
Proof.
  intros Hg. apply GenerateHash_inv in Hg as [[-> Hg] | [_ Hg]].
  - split; [reflexivity |]. revert Hg.
    unfold generateArgon2idHash, mbind, outcome_bind.
    destruct (configureArgon2id W) as [[params e] | |] eqn:Hc; [| discriminate ..].
    destruct (configureArgon2id_inv _ _ _ Hc) as [-> _].
    unfold rand_Read. destruct (rand_fails W).
    + intros [= <- <-]. auto.
    + unfold IDKey. destruct (argon2_IDKey W _ _ _ _ _ _); discriminate.
  - exfalso. revert Hg. unfold generateBcryptHash, mbind, outcome_bind.
    destruct (configureBcrypt W) as [[cost e] | |] eqn:Hc; [| discriminate ..].
    destruct (configureBcrypt_inv _ _ _ Hc) as [-> _].
    destruct (bcrypt_GenerateFromPassword W password cost) as [hash [e|]]; discriminate.
Qed.

(** X6. [VerifyPassword] does not look at what stands in front of the
    first [$]: two strings that differ there only are verified alike. *)
Theorem first_field_is_ignored (password f0 g0 rest : bytes) :
  "$"%byte ∉ f0 -> "$"%byte ∉ g0 ->
  VerifyPassword W password (f0 ++ "$"%byte :: rest) =
  VerifyPassword W password (g0 ++ "$"%byte :: rest).
Proof.
  intros Hf Hg.
  pose proof (Split_app f0 rest "$"%byte Hf) as H1.
  pose proof (Split_app g0 rest "$"%byte Hg) as H2.
  pose proof (decodeArgon2idHash_first_field _ _ _ _ _ H1 H2) as Ha.
  pose proof (decodeBcryptHash_first_field _ _ _ _ _ H1 H2) as Hb.
  unfold VerifyPassword. rewrite H1, H2.
  change ((f0 :: Split rest "$"%byte) !!! 1%nat) with (Split rest "$"%byte !!! 0%nat).
  change ((g0 :: Split rest "$"%byte) !!! 1%nat) with (Split rest "$"%byte !!! 0%nat).
  rewrite !len_cons. destruct (decide _); [| reflexivity].
  rewrite verifyFuncs_lookup.
  destruct (decide _); [| destruct (decide _); [| reflexivity]].
  - unfold verifyArgon2idHash. now rewrite Ha.
  - unfold verifyBcryptHash. now rewrite Hb.
Qed.

End RoundTrips.

Section Leniency.

Context (W : World).

(** X7. Verification of a bcrypt string does not read its parameter field:
    two bcrypt strings with the same hash field are verified alike,
    whatever stands where the cost is written. *)
Theorem bcrypt_parameter_is_ignored (password params params' b64Hash : bytes) :
  "$"%byte ∉ params -> "$"%byte ∉ params' ->
  VerifyPassword W password
    (go "$bcrypt$" ++ params ++ "$"%byte :: b64Hash) =
  VerifyPassword W password
    (go "$bcrypt$" ++ params' ++ "$"%byte :: b64Hash).
Proof.
  intros Hp Hp'.
  assert (forall p, "$"%byte ∉ p ->
            Split (go "$bcrypt$" ++ p ++ "$"%byte :: b64Hash) "$"%byte =
              [] :: go "bcrypt" :: p :: Split b64Hash "$"%byte) as Hs.
  { intros p Hno. change (go "$bcrypt$") with ("$"%byte :: go "bcrypt" ++ ["$"%byte]).
    cbn [app]. rewrite <- app_assoc. cbn [app].
    rewrite Split_head, Split_app by (apply (bool_decide_unpack _); vm_compute; exact I).
    now rewrite Split_app by exact Hno. }
  unfold VerifyPassword. rewrite (Hs params Hp), (Hs params' Hp').
  rewrite !len_cons. destruct (decide _); [| reflexivity].
  change ((_ :: ?a :: _) !!! 1%nat) with a.
  rewrite verifyFuncs_lookup.
  destruct (decide _) as [E | _]; [discriminate E |].
  destruct (decide _) as [_ | E]; [| done].
  unfold verifyBcryptHash, decodeBcryptHash. rewrite (Hs params Hp), (Hs params' Hp').
  rewrite !len_cons. reflexivity.
Qed.

(** X8. When the bcrypt decoder fails, for a wrong number of fields or for
    a hash field that is no strict base64, the verifier goes on and compares
    the password with the empty hash: the result is the one of
    [bcrypt.CompareHashAndPassword] on no bytes. *)
Theorem bcrypt_decoder_failure_compares_empty (password h : bytes) :
  len (Split h "$"%byte) > 2 ->
  Split h "$"%byte !!! 1%nat = go "bcrypt" ->
  len (Split h "$"%byte) <> 4 \/
    (base64.DecodeString (Split h "$"%byte !!! 3%nat)).2 <> None ->
  VerifyPassword W password h =
    match bcrypt_CompareHashAndPassword W [] password with
    | Some err => Ret (false, Some err)
    | None => Ret (true, None)
    end.
Proof.
  intros Hl Htag Hfail.
  rewrite (VerifyPassword_dispatch W password h (go "bcrypt") Hl Htag).
  rewrite verifyFuncs_lookup.
  destruct (decide _) as [E | _]; [discriminate E |].
  destruct (decide _) as [_ | E]; [| done].
  unfold verifyBcryptHash, decodeBcryptHash.
  destruct (decide _) as [_ | H4]; [reflexivity |].
  destruct Hfail as [Hne | Hdec]; [done |].
  destruct (base64.DecodeString _) as [hash [e|]]; [reflexivity | done].
Qed.

(** X11. A string that is tagged "argon2id" and that the decoder refuses,
    whatever the reason, ends the process with the decoder's error:
    [VerifyPassword] does not return. *)
Theorem argon2id_decoder_failure_is_fatal
    (password h : bytes) (params : argon2Params) (salt hash : bytes) (err : error) :
  len (Split h "$"%byte) > 2 ->
  Split h "$"%byte !!! 1%nat = go "argon2id" ->
  decodeArgon2idHash h = (params, salt, hash, Some err) ->
  VerifyPassword W password h = Fatal (Fatal_err err).
Proof.
  intros Hl Htag Hd.
  rewrite (VerifyPassword_dispatch W password h (go "argon2id") Hl Htag).
  rewrite verifyFuncs_lookup. destruct (decide _) as [_ | E]; [| done].
  unfold verifyArgon2idHash. now rewrite Hd.
Qed.

End Leniency.

Section Configuration.

Context (W : World).

(** X13. The Argon2id configuration has no range check: whatever integers
    the five variables hold, they are converted to the types of the
    parameters, that is reduced modulo 2^32, and modulo 2^8 for the
    parallelism. *)
Theorem configureArgon2id_wraps (m t p s k : Z) :
  strconv.Atoi (Getenv W (go "ARGON2ID_MEMORY")) = (m, None) ->
  strconv.Atoi (Getenv W (go "ARGON2ID_ITERATIONS")) = (t, None) ->
  strconv.Atoi (Getenv W (go "ARGON2ID_PARALLELISM")) = (p, None) ->
  strconv.Atoi (Getenv W (go "ARGON2ID_SALT_LENGTH")) = (s, None) ->
  strconv.Atoi (Getenv W (go "ARGON2ID_KEY_LENGTH")) = (k, None) ->
  configureArgon2id W =
    Ret ({| memory := m mod 2 ^ 32; iterations := t mod 2 ^ 32;
            parallelism := p mod 2 ^ 8;
            saltLength := s mod 2 ^ 32; keyLength := k mod 2 ^ 32 |}, None).
Proof.
  intros Hm Ht Hp Hs Hk. unfold configureArgon2id, config_int.
  rewrite Hm, Ht, Hp, Hs, Hk. reflexivity.
Qed.

(** X14. With a bcrypt cost that is a number outside of 4..31,
    [GenerateHash] ends the process with the text of
    [bcrypt.InvalidCostError], whatever the password. *)
Theorem bcrypt_cost_out_of_range_is_fatal (password : bytes) (cost : Z) :
  strconv.Atoi (Getenv W (go "BCRYPT_COST")) = (cost, None) ->
  cost < bcrypt.MinCost \/ bcrypt.MaxCost < cost ->
  GenerateHash W (go "bcrypt") password = Fatal (Fatal_text (InvalidCostError cost)).
Proof.
  intros Ha Hc. unfold GenerateHash. rewrite hashFuncs_lookup.
  destruct (decide _) as [E | _]; [discriminate E |].
  destruct (decide _) as [_ | E]; [| done].
  unfold generateBcryptHash, configureBcrypt. rewrite Ha.
  destruct (Z.ltb_spec cost bcrypt.MinCost); [reflexivity |].
  destruct (Z.ltb_spec bcrypt.MaxCost cost); [reflexivity | lia].
Qed.

(** X15. With a variable ARGON2ID_MEMORY that is no number, as when it is
    not set, [GenerateHash] ends the process with "Argon2id memory
    misconfigured" and the error of [strconv.Atoi], whatever the other
    variables hold. *)
Theorem argon2id_memory_misconfigured_is_fatal (password : bytes) (v : Z) (err : error) :
  strconv.Atoi (Getenv W (go "ARGON2ID_MEMORY")) = (v, Some err) ->
  GenerateHash W (go "argon2id") password =
    Fatal (Fatalf_err (go "Argon2id memory misconfigured: %v" ++ newline) err).
Proof.
  intros Ha. unfold GenerateHash. rewrite hashFuncs_lookup.
  destruct (decide _) as [_ | E]; [| done].
  unfold generateArgon2idHash, configureArgon2id, config_int. now rewrite Ha.
Qed.

End Configuration.

Section RouterFacts.

Context {M H : Type}.

Lemma wrap_steps_keep_routes (middlewares : list (H -> H))
    (visit : list (bytes * Route H)) (s : wrap_state H) :
  st_routes (fold_left (wrap_step middlewares) visit s) = st_routes s.
Proof.
  revert s. induction visit as [|entry visit IH]; intros s; [reflexivity |].
  cbn [fold_left]. now rewrite IH.
Qed.


End RouterFacts.

Section ScanRanges.

Import strconv fmt.

Lemma ParseUint_loop_nonneg (s : bytes) : forall n v,
  0 <= n -> ParseUint_loop s n = (v, None) -> 0 <= v.
Proof.
  induction s as [|c s IH]; intros n v Hn; cbn [ParseUint_loop].
  - intros [= <-]. exact Hn.
  - destruct (is_digit c) eqn:Hc; [| discriminate].
    apply is_digit_code in Hc.
    destruct (_ <=? n); [discriminate |].
    destruct (_ <? _); [discriminate |].
    apply IH. lia.
Qed.

Lemma scanOne_Unsigned_range (n : Z) (s : bytes) (v : Z) (rest : bytes) :
  scanOne (Unsigned n) s = inl (v, rest) -> 0 <= v < 2 ^ n.
Proof.
  unfold scanOne. destruct (SkipSpace _ _) as [[|c s1] | e]; try discriminate.
  destruct (scanNumber _) as [[tok rest'] | e]; [| discriminate].
  unfold ParseUint. destruct tok as [|d tok]; [discriminate |].
  destruct (ParseUint_loop (d :: tok) 0) as [i [r|]] eqn:Hp; [discriminate |].
  destruct (Z.ltb_spec i (2 ^ n)); [| discriminate].
  intros [= <- <-]. split; [| assumption].
  eapply ParseUint_loop_nonneg; [| exact Hp]. lia.
Qed.

(** What [Sscanf] stores for an unsigned operand fits its width; nothing
    stored is the value 0. *)
Lemma Sscanf_Unsigned_range (format : bytes) : forall str a vs err,
  Sscanf str format a = (vs, err) ->
  forall i n, a !! i = Some (Unsigned n) -> 0 <= n -> 0 <= nth i vs 0 < 2 ^ n.
Proof.
  induction format as [format IH] using (induction_ltof1 _ (@length byte)).
  unfold ltof in IH. intros str a vs err Hs i n Hi Hn.
  assert (0 <= nth i (@nil Z) 0 < 2 ^ n) as Hnil.
  { destruct i; cbn; split; try lia; apply Z.pow_pos_nonneg; lia. }
  destruct format as [|c format']; cbn [Sscanf] in Hs.
  { injection Hs as <- <-. exact Hnil. }
  destruct (decide (c = "%"%byte)) as [-> | Hc].
  - destruct format' as [|verb format'']; [injection Hs as <- <-; exact Hnil |].
    destruct (decide _); [injection Hs as <- <-; exact Hnil |].
    destruct (SkipSpace _ _) as [str1 | e]; [| injection Hs as <- <-; exact Hnil].
    destruct a as [|d a']; [injection Hs as <- <-; exact Hnil |].
    destruct (scanOne d str1) as [[v rest] | e] eqn:Hone;
      [| injection Hs as <- <-; exact Hnil].
    destruct (Sscanf rest format'' a') as [vs' err'] eqn:Hrec.
    injection Hs as <- <-.
    destruct i as [|i]; cbn [nth].
    + cbn in Hi. injection Hi as ->. eapply scanOne_Unsigned_range, Hone.
    + eapply (IH format''); [cbn; lia | exact Hrec | exact Hi | exact Hn].
  - destruct str as [|x str']; [injection Hs as <- <-; exact Hnil |].
    destruct (decide (c = x)); [| injection Hs as <- <-; exact Hnil].
    eapply (IH format'); [cbn; lia | exact Hs | exact Hi | exact Hn].
Qed.


End ScanRanges.

Section TrailingText.

Import strconv fmt.

Lemma Sscanf_params_string_app (v m t p : Z) (rest : bytes) :
  0 <= v < 2 ^ 63 -> 0 <= m < 2 ^ 32 -> 0 <= t < 2 ^ 32 -> 0 <= p < 2 ^ 8 ->
  no_digit_ahead rest ->
  Sscanf (params_string v m t p ++ rest) (go "v=%d,m=%d,t=%d,p=%d")
    [Signed 64; Unsigned 32; Unsigned 32; Unsigned 8] = ([v; m; t; p], None).
Proof.
  intros Hv Hm Ht Hp Hrest.
  assert (forall n x, 0 <= n <= 64 -> 0 <= x < 2 ^ n -> 0 <= x < 2 ^ 64) as H64.
  { intros n x Hn Hx. split; [lia |]. eapply Z.lt_le_trans; [apply Hx |].
    apply Z.pow_le_mono_r; lia. }
  destruct (fmt_d_spec v (H64 63 v ltac:(lia) Hv)) as (Nv & Av & _).
  destruct (fmt_d_spec m (H64 32 m ltac:(lia) Hm)) as (Nm & Am & _).
  destruct (fmt_d_spec t (H64 32 t ltac:(lia) Ht)) as (Nt & At & _).
  destruct (fmt_d_spec p (H64 8 p ltac:(lia) Hp)) as (Np & Ap & _).
  unfold params_string. rewrite <- !app_assoc. eval_go. cbn [app].
  rewrite !Sscanf_literal by discriminate.
  rewrite (Sscanf_d (Signed 64) v) by (auto; apply scanOne_Signed; done).
  rewrite !Sscanf_literal by discriminate.
  rewrite (Sscanf_d (Unsigned 32) m) by (auto; apply scanOne_Unsigned; done).
  rewrite !Sscanf_literal by discriminate.
  rewrite (Sscanf_d (Unsigned 32) t) by (auto; apply scanOne_Unsigned; done).
  rewrite !Sscanf_literal by discriminate.
  rewrite (Sscanf_d (Unsigned 8) p) by (auto; apply scanOne_Unsigned; done).
  reflexivity.
Qed.

Lemma Split_params_string_app (v m t p : Z) (rest : bytes) :
  0 <= v < 2 ^ 64 -> 0 <= m < 2 ^ 64 -> 0 <= t < 2 ^ 64 -> 0 <= p < 2 ^ 64 ->
  ","%byte ∉ rest ->
  Split (params_string v m t p ++ rest) ","%byte =
    [go "v=" ++ fmt_d v; go "m=" ++ fmt_d m; go "t=" ++ fmt_d t;
     (go "p=" ++ fmt_d p) ++ rest].
Proof.
  intros Hv Hm Ht Hp Hrest. unfold params_string.
  assert (forall (k : string) x, 0 <= x < 2 ^ 64 ->
            ","%byte ∉ go k -> ","%byte ∉ go k ++ fmt_d x) as Hno.
  { intros k x Hx Hk. rewrite not_elem_of_app. split; [exact Hk |].
    apply fmt_d_no; [assumption | reflexivity]. }
  change (go ",m=") with (","%byte :: go "m=").
  change (go ",t=") with (","%byte :: go "t=").
  change (go ",p=") with (","%byte :: go "p=").
  rewrite <- !app_assoc.
  rewrite (app_assoc (go "v=")), <- (app_comm_cons (go "m=")).
  rewrite Split_app by (apply Hno; [assumption | apply (bool_decide_unpack _); vm_compute; exact I]).
  rewrite (app_assoc (go "m=")), <- (app_comm_cons (go "t=")).
  rewrite Split_app by (apply Hno; [assumption | apply (bool_decide_unpack _); vm_compute; exact I]).
  rewrite (app_assoc (go "t=")), <- (app_comm_cons (go "p=")).
  rewrite Split_app by (apply Hno; [assumption | apply (bool_decide_unpack _); vm_compute; exact I]).
  rewrite (app_assoc (go "p=")).
  rewrite Split_none; [reflexivity |].
  rewrite not_elem_of_app. split; [| exact Hrest].
  apply Hno; [assumption | apply (bool_decide_unpack _); vm_compute; exact I].
Qed.

(** X10. The Argon2id decoder does not require the parameter field to end
    after the parallelism: text that follows it, without [$] or comma and
    not starting with a digit, is ignored, and the string decodes to the
    same parameters, salt and hash as without it. *)
Theorem text_after_parameters_is_ignored (m t p : Z) (salt hash text : bytes) :
  0 <= m < 2 ^ 32 -> 0 <= t < 2 ^ 32 -> 0 <= p < 2 ^ 8 ->
  "$"%byte ∉ text -> ","%byte ∉ text -> no_digit_ahead text ->
  decodeArgon2idHash
    (go "$argon2id$" ++ (params_string argon2.Version m t p ++ text) ++
     go "$" ++ base64.EncodeToString salt ++ go "$" ++ base64.EncodeToString hash) =
    ({| memory := m; iterations := t; parallelism := p;
        saltLength := uint32 (len salt); keyLength := uint32 (len hash) |},
     salt, hash, None).
Proof.
  intros Hm Ht Hp Hd Hc Hn.
  assert (0 <= argon2.Version < 2 ^ 63) as Hv by (vm_compute; split; congruence).
  assert (forall n x, 0 <= n <= 64 -> 0 <= x < 2 ^ n -> 0 <= x < 2 ^ 64) as H64.
  { intros n x Hn' Hx. split; [lia |]. eapply Z.lt_le_trans; [apply Hx |].
    apply Z.pow_le_mono_r; lia. }
  pose proof (H64 63 _ ltac:(lia) Hv) as Hv'.
  pose proof (H64 32 _ ltac:(lia) Hm) as Hm'.
  pose proof (H64 32 _ ltac:(lia) Ht) as Ht'.
  pose proof (H64 8 _ ltac:(lia) Hp) as Hp'.
  etransitivity;
    [eapply decodeArgon2idHash_fields with
       (f0 := []) (f1 := go "argon2id")
       (ps := params_string argon2.Version m t p ++ text)
       (s := base64.EncodeToString salt) (k := base64.EncodeToString hash)
       (scanned := [argon2.Version; m; t; p]) (salt := salt) (hash := hash)
    | reflexivity].
  - change (go "$argon2id$") with ("$"%byte :: go "argon2id" ++ ["$"%byte]).
    change (go "$") with ["$"%byte].
    cbn [app]. rewrite <- (app_assoc (go "argon2id")). cbn [app].
    rewrite Split_head.
    rewrite Split_app by (apply (bool_decide_unpack _); vm_compute; exact I).
    rewrite Split_app.
    2: { rewrite not_elem_of_app. split; [| exact Hd].
         now apply params_string_no_dollar. }
    rewrite Split_app by (apply EncodeToString_no; reflexivity).
    rewrite Split_none by (apply EncodeToString_no; reflexivity).
    reflexivity.
  - now rewrite Split_params_string_app.
  - now apply Sscanf_params_string_app.
  - reflexivity.
  - apply DecodeString_EncodeToString.
  - apply DecodeString_EncodeToString.
Qed.

End TrailingText.

Section LibraryFacts.

Lemma index_of_elem (b : byte) (l : bytes) : forall i,
  base64.index_of b l i <> 255 -> b ∈ l.
Proof.
  induction l as [|c l IH]; intros i; cbn [base64.index_of]; [done |].
  destruct (decide (c = b)) as [-> | _]; [intros _; apply list_elem_of_here |].
  intros H. apply list_elem_of_further. exact (IH _ H).
Qed.

(** X16. Unpadded base64 as the module writes and reads it: the strict
    decoder gives back the bytes that were encoded, without error; the
    encoding has the length Go computes for it and consists of bytes of the
    standard alphabet. *)
Theorem base64_round_trip (src : bytes) :
  base64.DecodeString (base64.EncodeToString src) = (src, None) /\
  length (base64.EncodeToString src) =
    (length src / 3 * 4 + (length src mod 3 * 8 + 5) / 6)%nat /\
  Forall (fun c => c ∈ base64.encodeStd) (base64.EncodeToString src).
Proof.
  split; [apply Decode_EncodeToString |]. split.
  - induction src as [src IH] using (induction_ltof1 _ (@length byte)).
    unfold ltof in IH.
    destruct src as [|a [|b [|c rest]]]; [reflexivity .. |].
    cbn [base64.EncodeToString length]. rewrite (IH rest) by (simpl; lia).
    generalize (length rest). intros n.
    replace (S (S (S n))) with (n + 1 * 3)%nat by lia.
    rewrite Nat.div_add, Nat.Div0.mod_add by lia. lia.
  - eapply Forall_impl; [apply EncodeToString_alphabet |].
    intros c Hc. eapply index_of_elem. exact Hc.
Qed.

(** X17. The comparison of the verifier answers 1 for two slices with the
    same bytes and 0 for any other two, of the same length or not. *)
Theorem ConstantTimeCompare_decides (x y : bytes) :
  subtle.ConstantTimeCompare x y = if decide (x = y) then 1 else 0.
Proof.
  destruct (decide (x = y)) as [Heq | Hne]; [now apply ConstantTimeCompare_spec |].
  assert (subtle.ConstantTimeCompare x y <> 1) as H1
    by (intros H; apply Hne; now apply ConstantTimeCompare_spec).
  revert H1. unfold subtle.ConstantTimeCompare.
  destruct (decide _) as [Hl | _]; [| reflexivity].
  pose proof (fold_xor_range x y 0 ltac:(lia)) as Hr.
  generalize dependent (subtle.fold_xor x y 0). intros v Hr.
  unfold subtle.ConstantTimeByteEq, uint32.
  rewrite Z.lxor_0_r, Z.shiftr_div_pow2 by lia.
  change (2 ^ 32) with 4294967296. change (2 ^ 31) with 2147483648.
  intros H1. Z.div_mod_to_equations. lia.
Qed.

(** X18. [Split] cuts a string at every separator and nowhere else: the
    fields, put together again with the separator between them, are the
    string; no field holds the separator; and there is one field more than
    there are separators, so never none. *)
Theorem Split_fields_of_string (s : bytes) (sep : byte) :
  exists f fs,
    Split s sep = f :: fs /\
    s = f ++ concat (map (cons sep) fs) /\
    Forall (fun field => sep ∉ field) (f :: fs) /\
    length fs = length (filter (fun c => c = sep) s).
Proof.
  induction s as [|c s (f & fs & Hs & Hjoin & Hno & Hlen)].
  - exists [], []. repeat split; try reflexivity.
    constructor; [apply not_elem_of_nil | constructor].
  - cbn [Split]. destruct (decide (c = sep)) as [-> | Hc].
    + exists [], (f :: fs). rewrite Hs. repeat split.
      * cbn. now rewrite <- Hjoin.
      * constructor; [apply not_elem_of_nil | exact Hno].
      * rewrite filter_cons_True by reflexivity. cbn. now rewrite Hlen.
    + exists (c :: f), fs. rewrite Hs. repeat split.
      * cbn. now rewrite <- Hjoin.
      * inversion Hno as [|? ? Hf Hfs]; subst. constructor; [| exact Hfs].
        apply not_elem_of_cons. split; [congruence | exact Hf].
      * rewrite filter_cons_False by exact Hc. exact Hlen.
Qed.

End LibraryFacts.

Section FurtherExamples.

Ltac by_evaluation := vm_compute; first [reflexivity | discriminate | split; congruence].
Ltac absent := apply (bool_decide_unpack _); vm_compute; exact I.

Lemma generated_argon2id_decodes_witness :
  GenerateHash Sample.world (go "argon2id") password123 = Ret (sample_argon2id, None) /\
  exists params salt hash,
    configureArgon2id Sample.world = Ret (params, None) /\
    rand_Read Sample.world (saltLength params) = (salt, None) /\
    argon2_IDKey Sample.world password123 salt (iterations params) (memory params)
      (parallelism params) (keyLength params) = Some hash /\
    decodeArgon2idHash sample_argon2id = (params, salt, hash, None).
Proof.
  split; [by_evaluation |].
  apply (generated_argon2id_decodes Sample.world password123 sample_argon2id);
    [exact Sample_sound | by_evaluation].
Defined.

Lemma generated_bcrypt_decodes_witness :
  GenerateHash Sample.world (go "bcrypt") password123 = Ret (sample_bcrypt, None) /\
  exists cost hash,
    configureBcrypt Sample.world = Ret (cost, None) /\
    bcrypt_GenerateFromPassword Sample.world password123 cost = (hash, None) /\
    decodeBcryptHash sample_bcrypt = (hash, None).
Proof.
  split; [by_evaluation |].
  apply (generated_bcrypt_decodes Sample.world password123 sample_bcrypt). by_evaluation.
Defined.

Lemma argon2id_match_iff_same_key_witness :
  VerifyPassword Sample.world password123 sample_argon2id = Ret (true, None) /\
  VerifyPassword Sample.world wrongpass sample_argon2id =
    Ret (false, Some (errors_New (go "invalid password"))).
Proof.
  let r := eval vm_compute in (decodeArgon2idHash sample_argon2id) in
  match r with
  | (?p, ?s, ?k, None) =>
      let k1 := eval vm_compute in
        (Sample.idkey password123 s (iterations p) (memory p) (parallelism p) (keyLength p)) in
      let k2 := eval vm_compute in
        (Sample.idkey wrongpass s (iterations p) (memory p) (parallelism p) (keyLength p)) in
      match k1 with
      | Some ?key1 =>
          match k2 with
          | Some ?key2 =>
              pose proof (argon2id_match_iff_same_key Sample.world password123
                            sample_argon2id p s k key1
                            ltac:(by_evaluation) ltac:(by_evaluation) ltac:(by_evaluation))
                as H1;
              pose proof (argon2id_match_iff_same_key Sample.world wrongpass
                            sample_argon2id p s k key2
                            ltac:(by_evaluation) ltac:(by_evaluation) ltac:(by_evaluation))
                as H2
          end
      end
  end.
  split.
  - rewrite H1. clear H1 H2.
    destruct (decide _) as [_ | E]; [reflexivity | exfalso; apply E; reflexivity].
  - rewrite H2. clear H1 H2.
    destruct (decide _) as [E | _]; [discriminate E | reflexivity].
Defined.

Lemma GenerateHash_error_is_entropy_witness :
  GenerateHash world_without_entropy (go "argon2id") password123 =
    Ret ([], Some rand_error) /\
  rand_fails world_without_entropy = true.
Proof.
  split; [by_evaluation |].
  apply (GenerateHash_error_is_entropy world_without_entropy (go "argon2id")
           password123 [] rand_error).
  by_evaluation.
Defined.

Lemma first_field_is_ignored_witness :
  VerifyPassword Sample.world password123 (go "anything" ++ "$"%byte :: go "bcrypt$c=4$BHBhc3N3b3JkMTIz") =
  VerifyPassword Sample.world password123 ([] ++ "$"%byte :: go "bcrypt$c=4$BHBhc3N3b3JkMTIz").
Proof.
  apply (first_field_is_ignored Sample.world); [absent | apply not_elem_of_nil].
Defined.

Lemma bcrypt_parameter_is_ignored_witness :
  VerifyPassword Sample.world password123
    (go "$bcrypt$" ++ go "c=4" ++ "$"%byte :: go "BHBhc3N3b3JkMTIz") =
  VerifyPassword Sample.world password123
    (go "$bcrypt$" ++ go "no cost at all" ++ "$"%byte :: go "BHBhc3N3b3JkMTIz").
Proof.
  apply (bcrypt_parameter_is_ignored Sample.world); absent.
Defined.

Lemma bcrypt_decoder_failure_compares_empty_witness :
  decodeBcryptHash (go "$bcrypt$c=4$not base64") = ([], Some (CorruptInputError 3)) /\
  VerifyPassword Sample.world password123 (go "$bcrypt$c=4$not base64") =
    Ret (false, Some (bcrypt_error (go "hash too short"))).
Proof.
  split; [by_evaluation |].
  etransitivity;
    [apply (bcrypt_decoder_failure_compares_empty Sample.world password123
              (go "$bcrypt$c=4$not base64"));
       [by_evaluation | by_evaluation | right; by_evaluation]
    | by_evaluation].
Defined.


Lemma text_after_parameters_is_ignored_witness :
  decodeArgon2idHash
    (go "$argon2id$" ++ (params_string argon2.Version 65536 6 2 ++ go " or so") ++
     go "$" ++ base64.EncodeToString (go "salt") ++
     go "$" ++ base64.EncodeToString (go "hash")) =
    ({| memory := 65536; iterations := 6; parallelism := 2;
        saltLength := uint32 (len (go "salt")); keyLength := uint32 (len (go "hash")) |},
     go "salt", go "hash", None).
Proof.
  apply text_after_parameters_is_ignored;
    [by_evaluation | by_evaluation | by_evaluation | absent | absent | by_evaluation].
Defined.

Lemma argon2id_decoder_failure_is_fatal_witness :
  VerifyPassword Sample.world password123
    (go "$argon2id$v=19,m=65536,t=6,p=2$c2FsdA$not base64") =
    Fatal (Fatal_err (CorruptInputError 3)).
Proof.
  eapply (argon2id_decoder_failure_is_fatal Sample.world password123
            (go "$argon2id$v=19,m=65536,t=6,p=2$c2FsdA$not base64"));
    by_evaluation.
Defined.

Lemma configureArgon2id_wraps_witness :
  configureArgon2id (world_with env_wrapping) =
    Ret ({| memory := 4294967295; iterations := 3; parallelism := 2;
            saltLength := 16; keyLength := 32 |}, None).
Proof.
  etransitivity;
    [apply (configureArgon2id_wraps (world_with env_wrapping) (-1) 4294967299 258 16 32);
       by_evaluation
    | by_evaluation].
Defined.

Lemma bcrypt_cost_out_of_range_is_fatal_witness :
  GenerateHash (world_with env_wrapping) (go "bcrypt") password123 =
    Fatal (Fatal_text (InvalidCostError 32)).
Proof.
  apply (bcrypt_cost_out_of_range_is_fatal (world_with env_wrapping) password123 32);
    [by_evaluation | right; by_evaluation].
Defined.

Lemma argon2id_memory_misconfigured_is_fatal_witness :
  GenerateHash (world_with []) (go "argon2id") password123 =
    Fatal (Fatalf_err (go "Argon2id memory misconfigured: %v" ++ newline)
             (NumError (go "Atoi") [] false)).
Proof.
  apply (argon2id_memory_misconfigured_is_fatal (world_with []) password123 0).
  by_evaluation.
Defined.

End FurtherExamples.
